(** * Tumblr channel relay: fetcher (fetchers/tumblr.go) and
      dispatcher (TelegramBot.Send)

    A shallow embedding of the two Go files.  Go strings are byte strings
    ([string] of 8-bit [ascii]); [int64] values are [Z] with the
    two's-complement wrap written out where the code does arithmetic;
    the go-cache map and the two storm buckets are [gmap]s keyed by
    [string]; Go [error] values are identified by their message. *)

From stdpp Require Import gmap strings list fin_maps pretty.
From Stdlib Require Import ZArith String Ascii Lia.

Local Open Scope string_scope.
Local Open Scope Z_scope.
Local Open Scope list_scope.

(** ** Go primitives used by the two files *)

Definition error := string.

(** [int64] arithmetic wraps modulo 2^64. *)
Definition int64_min : Z := - 2 ^ 63.
Definition int64_max : Z := 2 ^ 63 - 1.
Definition in_int64 (z : Z) : Prop := int64_min <= z <= int64_max.
Definition wrap64 (z : Z) : Z := (z + 2 ^ 63) mod 2 ^ 64 - 2 ^ 63.
Definition sub64 (a b : Z) : Z := wrap64 (a - b).

(** [strconv.FormatInt(n, 10)]. *)
Definition FormatInt (n : Z) : string := pretty n.

(** [fmt.Sprintf("%s@%s", a, b)]. *)
Definition Sprintf_at (a b : string) : string := a +:+ "@" +:+ b.

(** [strings.Split(s, sep)] for a one-byte separator: one more piece than
    there are separators, so the empty string gives one empty piece. *)
Fixpoint Split (s : string) (sep : ascii) : list string :=
  match s with
  | EmptyString => [EmptyString]
  | String c rest =>
      if Ascii.eqb c sep then EmptyString :: Split rest sep
      else match Split rest sep with
           | piece :: pieces => String c piece :: pieces
           | [] => [String c EmptyString]
           end
  end.

(** [strings.ToLower] is a function of the Go library, and lowers by
    Unicode code point.  Its case for a string of ASCII bytes only is
    written out here: each of A-Z becomes the matching a-z and every
    other byte stays.  On other strings the library decodes UTF-8 and
    maps each code point (U+0130 becomes "i", a byte that is not valid
    UTF-8 becomes U+FFFD); that part is taken as a parameter, see
    [ToLower] below. *)
Definition lower_byte (c : ascii) : ascii :=
  let n := nat_of_ascii c in
  if ((65 <=? n) && (n <=? 90))%nat then ascii_of_nat (n + 32) else c.

Fixpoint ascii_lower (s : string) : string :=
  match s with
  | EmptyString => EmptyString
  | String c rest => String (lower_byte c) (ascii_lower rest)
  end.

(** Is every byte below [utf8.RuneSelf] (0x80)? *)
Fixpoint is_ascii (s : string) : bool :=
  match s with
  | EmptyString => true
  | String c rest => ((nat_of_ascii c <? 128)%nat && is_ascii rest)%bool
  end.

(** [strings.HasSuffix]. *)
Definition HasSuffix (s suffix : string) : bool :=
  let n := String.length s in
  let k := String.length suffix in
  ((k <=? n)%nat && String.eqb (substring (n - k) k s) suffix)%bool.

(** A value of type [interface{}] as the code inspects it: the two
    dynamic types it asserts, and everything else ([nil], the [float64]
    that encoding/json stores for a JSON number, bool, map, slice). *)
Inductive iface :=
| IString (s : string)
| IInt64 (n : Z)
| IOther.

(** [v.(string)] and [v.(int64)] in comma-ok form: the zero value and
    [false] when the dynamic type differs. *)
Definition assert_string (v : iface) : string * bool :=
  match v with IString s => (s, true) | _ => (EmptyString, false) end.

Definition assert_int64 (v : iface) : Z * bool :=
  match v with IInt64 n => (n, true) | _ => (0, false) end.

(** ** Data model *)

(** Modelled from the spec: the declarations of [Resource],
    [ReplyMessage], [TIMAGE] and [TVIDEO] are in a file of package
    fetchers that is not part of the sources at hand.  The kind is an
    integer tag with two named values; [TOTHER] stands for every other
    value of that integer type. *)
Inductive ResourceType :=
| TIMAGE
| TVIDEO
| TOTHER (n : Z).

Record Resource := {
  URL : string;
  T : ResourceType;
  ResCaption : string
}.

Record ReplyMessage := {
  Resources : list Resource;
  Caption : string;
  Err : option error
}.

Definition ResourceType_eqb (a b : ResourceType) : bool :=
  match a, b with
  | TIMAGE, TIMAGE => true
  | TVIDEO, TVIDEO => true
  | TOTHER n, TOTHER m => Z.eqb n m
  | _, _ => false
  end.

(** The fields of [TumblrPosts] that the fetcher reads. *)
Record TrailEntry := { Post_ID : iface }.

Record PostPhoto := { OriginalSize_URL : string }.

Record Post := {
  Type_ : string;
  ID : Z;
  Timestamp : Z;
  ShortURL : string;
  Trail : list TrailEntry;
  VideoURL : string;
  Photos : list PostPhoto
}.

Record TumblrPosts := {
  Meta_Status : Z;
  Response_Posts : list Post
}.

(** ** The persistent store (storm) and the fetcher *)

(** The two buckets the fetcher uses.  [journal] is ghost state: every
    [Set] the code issues, in order, whether or not the store accepted
    it. *)
Inductive SetCall :=
| SetLastUpdate (key : string) (v : Z)
| SetBlock (key : string) (v : bool).

Record Store := {
  last_update : gmap string Z;
  block : gmap string bool;
  journal : list SetCall
}.

(** [DB.Get(bucket, key, &v)]: [None] is a non-nil error (key absent). *)
Definition DB_Get_last_update (db : Store) (key : string) : option Z :=
  last_update db !! key.

Definition DB_Get_block (db : Store) (key : string) : option bool :=
  block db !! key.

(** [DB.Set(bucket, key, v)].  [werr] is the answer of the store to this
    write: [None] when it commits, [Some e] when the transaction fails
    and the buckets stay as they were. *)
Definition DB_Set (werr : option error) (c : SetCall) (db : Store)
  : Store * option error :=
  match werr with
  | Some e =>
      ({| last_update := last_update db; block := block db;
          journal := journal db ++ [c] |}, Some e)
  | None =>
      match c with
      | SetLastUpdate key v =>
          ({| last_update := <[key := v]> (last_update db); block := block db;
              journal := journal db ++ [c] |}, None)
      | SetBlock key v =>
          ({| last_update := last_update db; block := <[key := v]> (block db);
              journal := journal db ++ [c] |}, None)
      end
  end.

(** [cache] is the go-cache map: the keys it holds, each with the value
    [true].  The expiry of its entries (after [cacheExp] hours) and the
    purge are real-time effects outside this model: what is stated about
    the cache holds for as long as no entry expires. *)
Record TumblrFetcher := {
  DB : Store;
  OAuthConsumerKey : string;
  cache : gmap string bool
}.

Definition with_DB (f : TumblrFetcher) (db : Store) : TumblrFetcher :=
  {| DB := db; OAuthConsumerKey := OAuthConsumerKey f; cache := cache f |}.

Definition with_cache (f : TumblrFetcher) (c : gmap string bool) : TumblrFetcher :=
  {| DB := DB f; OAuthConsumerKey := OAuthConsumerKey f; cache := c |}.

(** ** fetchers/tumblr.go *)

(** Lines 111-123: the id under which a post is remembered. *)
Definition canonical_id (p : Post) : string :=
  let msgid := FormatInt (ID p) in
  if (1 <? List.length (Trail p))%nat then
    match Trail p !! 0%nat with
    | Some t0 =>
        let '(msgid_str, ok) := assert_string (Post_ID t0) in
        let msgid :=
          if (ok && negb (String.eqb msgid_str ""))%bool then msgid_str else msgid in
        let '(msgid_int64, ok) := assert_int64 (Post_ID t0) in
        let msgid :=
          if (ok && negb (msgid_int64 =? 0))%bool then FormatInt msgid_int64 else msgid in
        msgid
    | None => msgid
    end
  else msgid.

(** Line 124: the cache key. *)
Definition msgid_of (user : string) (p : Post) : string :=
  Sprintf_at user (canonical_id p).

(** Lines 138-147: is this photo URL on the block list of [user]? *)
Definition is_blocked_url (db : Store) (user url : string) : bool :=
  let strsplit := Split url "/" in
  if (4 <=? List.length strsplit)%nat then
    let imghash := Sprintf_at user (nth 3 strsplit EmptyString) in
    match DB_Get_block db imghash with
    | Some is_blocked => is_blocked
    | None => false
    end
  else false.

(** From here on [ToLower] is [strings.ToLower] of the Go library, of
    which nothing is assumed unless a statement says so: what is proved
    of the fetcher holds whichever kind a photo is given. *)
Section Lowering.

Variable ToLower : string -> string.

(** Lines 133-136. *)
Definition photo_type (url : string) : ResourceType :=
  if HasSuffix (ToLower url) ".gif" then TVIDEO else TIMAGE.

(** Lines 132-150: the loop over [p.Photos], [res] being the slice built
    so far. *)
Fixpoint range_photos (db : Store) (user : string) (photos : list PostPhoto)
    (res : list Resource) : list Resource :=
  match photos with
  | [] => res
  | photo :: rest =>
      let tType := photo_type (OriginalSize_URL photo) in
      if is_blocked_url db user (OriginalSize_URL photo) then
        range_photos db user rest res
      else
        range_photos db user rest
          (res ++ [ {| URL := OriginalSize_URL photo; T := tType;
                       ResCaption := OriginalSize_URL photo |} ])
  end.

(** Lines 131-153: the resources of one post. *)
Definition post_resources (db : Store) (user : string) (p : Post) : list Resource :=
  let res := range_photos db user (Photos p) [] in
  if negb (String.eqb (VideoURL p) "") then
    res ++ [ {| URL := VideoURL p; T := TVIDEO; ResCaption := VideoURL p |} ]
  else res.

Definition eligible (p : Post) : bool :=
  (String.eqb (Type_ p) "photo" || String.eqb (Type_ p) "video")%bool.

(** Lines 103-158: the loop over the posts; [ret] and [c] are the slice
    and the cache as they stand when the iteration starts. *)
Fixpoint range_posts (db : Store) (user : string) (time : Z) (posts : list Post)
    (ret : list ReplyMessage) (c : gmap string bool)
  : list ReplyMessage * gmap string bool :=
  match posts with
  | [] => (ret, c)
  | p :: rest =>
      if negb (eligible p) then range_posts db user time rest ret c
      else if Timestamp p <? time then (ret, c)
      else
        let msgid := msgid_of user p in
        match c !! msgid with
        | Some _ => range_posts db user time rest ret c
        | None =>
            let c := <[msgid := true]> c in
            let res := post_resources db user p in
            let ret :=
              if (0 <? List.length res)%nat then
                ret ++ [ {| Resources := res; Caption := ShortURL p; Err := None |} ]
              else ret in
            range_posts db user time rest ret c
        end
  end.

Section Remote.

(** The two collaborators of [getUserTimeline]: the HTTP client of
    [BaseFetcher] and [json.Unmarshal] into [TumblrPosts]. *)
Variable HTTPGet : string -> error + string.
Variable Unmarshal : string -> error + TumblrPosts.

Definition api_url (user key : string) : string :=
  "https://api.tumblr.com/v2/blog/" +:+ user +:+ ".tumblr.com/posts?api_key=" +:+ key.

Definition getUserTimeline (f : TumblrFetcher) (user : string) (time : Z)
  : (list ReplyMessage * option error) * TumblrFetcher :=
  if String.eqb (OAuthConsumerKey f) "" then (([], Some "Need API key."), f)
  else
    match HTTPGet (api_url user (OAuthConsumerKey f)) with
    | inl err => (([], Some err), f)
    | inr resp_content =>
        match Unmarshal resp_content with
        | inl err => (([], Some err), f)
        | inr posts =>
            if negb (Meta_Status posts =? 200) then
              (([], Some "Tumblr api error."), f)
            else
              let '(ret, c) :=
                range_posts (DB f) user time (Response_Posts posts) [] (cache f) in
              ((ret, None), with_cache f c)
        end
    end.

(** Lines 168-173 of [GetPush]. *)
Fixpoint range_followings (f : TumblrFetcher) (last : Z) (followings : list string)
    (ret : list ReplyMessage) : list ReplyMessage * TumblrFetcher :=
  match followings with
  | [] => (ret, f)
  | follow :: rest =>
      let '((single, err), f) := getUserTimeline f follow last in
      let ret := match err with None => ret ++ single | Some _ => ret end in
      range_followings f last rest ret
  end.

(** [now] is the reading of [time.Now().Unix()], [werr] the answer of
    the store to the one write the function may issue. *)
Definition GetPush (now : Z) (werr : option error) (f : TumblrFetcher)
    (userid : string) (followings : list string)
  : list ReplyMessage * TumblrFetcher :=
  let last :=
    match DB_Get_last_update (DB f) userid with
    | Some v => v
    | None => 0
    end in
  let '(ret, f) := range_followings f last followings [] in
  if negb (List.length ret =? 0)%nat then
    (ret, with_DB f (fst (DB_Set werr (SetLastUpdate userid now) (DB f))))
  else (ret, f).

End Remote.

Definition GoBack (now : Z) (werr : option error) (f : TumblrFetcher)
    (userid : string) (back : Z) : option error * TumblrFetcher :=
  if now <? back then (Some "Back too long!", f)
  else
    let '(db, err) := DB_Set werr (SetLastUpdate userid (sub64 now back)) (DB f) in
    (err, with_DB f db).

Definition Block (werr : option error) (f : TumblrFetcher)
    (userid caption : string) : string * TumblrFetcher :=
  let strsplit := Split caption "/" in
  if (4 <=? List.length strsplit)%nat then
    let imghash := Sprintf_at userid (nth 3 strsplit EmptyString) in
    (imghash +:+ " blocked.",
     with_DB f (fst (DB_Set werr (SetBlock imghash true) (DB f))))
  else ("Unrecognized image caption.", f).

(** [Init], lines 77-81: the fetcher is given its bucket of the database
    and a new, empty cache; the credential, read from the configuration,
    stays.  The error returned is always nil. *)
Definition Init (f : TumblrFetcher) (db : Store) : option error * TumblrFetcher :=
  (None, {| DB := db; OAuthConsumerKey := OAuthConsumerKey f; cache := ∅ |}).

(** ** TelegramBot.Send *)

Definition MaxAlbumSize : nat := 10.

(** [tb.Recipient]: the chat a message goes to. *)
Definition Recipient := string.

(** [tb.InputMedia]: the two implementations the dispatcher builds. *)
Inductive InputMedia :=
| tb_Photo (File_URL caption : string)
| tb_Video (File_URL caption : string).

(** What [Bot.Send] is handed: a text, or the [mediaFile] variable, which
    is [nil] ([None]) until one of the two branches assigns it. *)
Inductive Sendable :=
| SendText (text : string)
| SendMedia (mediaFile : option InputMedia).

Inductive BotCall :=
| Bot_Send (to : Recipient) (what : Sendable)
| Bot_SendAlbum (to : Recipient) (a : list InputMedia).

(** The messaging transport: its answer ([None] is a nil error) to a call,
    given the calls made before it. *)
Definition Transport := list BotCall -> BotCall -> option error.

(** How a call of [Send] ends: it returns an error value, or the Go
    runtime panics. *)
Inductive Outcome :=
| Returned (err : option error)
| Panicked.

(** The slice expression [s[:hi]] on a string panics when [hi > len(s)]. *)
Definition slice_to (s : string) (hi : nat) : option string :=
  if (hi <=? String.length s)%nat then Some (substring 0 hi s) else None.

(** Lines 66-68. *)
Definition truncate_caption (caption : string) : option string :=
  if (190 <=? String.length caption)%nat then slice_to caption 191
  else Some caption.

(** Lines 98-106: the loop over one batch. *)
Fixpoint range_album (caption : string) (rs : list Resource)
    (mediaFiles : list InputMedia) : list InputMedia :=
  match rs with
  | [] => mediaFiles
  | r :: rest =>
      if ResourceType_eqb (T r) TIMAGE then
        range_album caption rest (mediaFiles ++ [tb_Photo (URL r) caption])
      else if ResourceType_eqb (T r) TVIDEO then
        range_album caption rest (mediaFiles ++ [tb_Video (URL r) caption])
      else range_album caption rest mediaFiles
  end.

Section Dispatcher.

Variable bot : Transport.

(** One call of the transport: logged, and answered. *)
Definition call (log : list BotCall) (c : BotCall) : list BotCall * option error :=
  (log ++ [c], bot log c).

(** Lines 92-113: [for i := 0; i < len(message.Resources); i += MaxAlbumSize],
    entered at index [i].  [fuel] bounds the iterations;
    [range_batches_fuel] shows that what [Send] passes is enough. *)
Fixpoint range_batches (fuel : nat) (to : Recipient) (message : ReplyMessage)
    (i : nat) (ret : option error) (log : list BotCall)
  : list BotCall * option error :=
  match fuel with
  | O => (log, ret)
  | S fuel =>
      if (i <? List.length (Resources message))%nat then
        let end_ := (i + MaxAlbumSize)%nat in
        let end_ :=
          if (List.length (Resources message) <? end_)%nat
          then List.length (Resources message) else end_ in
        let mediaFiles :=
          range_album (Caption message)
            (take (end_ - i) (drop i (Resources message))) [] in
        let '(log, err) := call log (Bot_SendAlbum to mediaFiles) in
        let ret := match err with Some e => Some e | None => ret end in
        range_batches fuel to message (i + MaxAlbumSize)%nat ret log
      else (log, ret)
  end.

Definition Send (to : Recipient) (message : ReplyMessage) : list BotCall * Outcome :=
  match Err message with
  | Some e => ([], Returned (Some e))
  | None =>
      if (List.length (Resources message) =? 1)%nat then
        match truncate_caption (Caption message), Resources message !! 0%nat with
        | Some caption, Some r0 =>
            let '(mediaFile, err) :=
              if ResourceType_eqb (T r0) TIMAGE then
                (Some (tb_Photo (URL r0) caption), None)
              else if ResourceType_eqb (T r0) TVIDEO then
                (Some (tb_Video (URL r0) caption), None)
              else (None, Some "Undefined message type.") in
            let '(log, err) := call [] (Bot_Send to (SendMedia mediaFile)) in
            (log, Returned err)
        | _, _ => ([], Panicked)
        end
      else
        let '(log, err) :=
          if (List.length (Resources message) =? 0)%nat then
            call [] (Bot_Send to (SendText (Caption message)))
          else ([], None) in
        match err with
        | Some e => (log, Returned (Some e))
        | None =>
            let '(log, ret) :=
              range_batches (List.length (Resources message)) to message 0 None log in
            (log, Returned ret)
        end
  end.

End Dispatcher.

(** ** Vocabulary of the statements *)

(** The kinds [Send] has a branch for. *)
Definition recognized (r : Resource) : bool :=
  (ResourceType_eqb (T r) TIMAGE || ResourceType_eqb (T r) TVIDEO)%bool.

(** The album entry lines 99-102 build for a resource of a recognized kind. *)
Definition media_of (caption : string) (r : Resource) : InputMedia :=
  if ResourceType_eqb (T r) TIMAGE then tb_Photo (URL r) caption
  else tb_Video (URL r) caption.

(** The albums in a log of transport calls, and their sizes. *)
Definition albums_of (log : list BotCall) : list (list InputMedia) :=
  flat_map (fun c => match c with
                     | Bot_SendAlbum _ a => [a]
                     | Bot_Send _ _ => []
                     end) log.

Definition album_sizes (log : list BotCall) : list nat :=
  List.map (@List.length InputMedia) (albums_of log).

(** The posts the loop of [getUserTimeline] reaches and does not pass
    over for their type: those before the first eligible post older than
    [time]. *)
Fixpoint enumerated (time : Z) (posts : list Post) : list Post :=
  match posts with
  | [] => []
  | p :: rest =>
      if negb (eligible p) then enumerated time rest
      else if Timestamp p <? time then []
      else p :: enumerated time rest
  end.

(** The resource line 149 builds for a photo, and the one line 152
    appends for a direct video URL. *)
Definition photo_resource (photo : PostPhoto) : Resource :=
  {| URL := OriginalSize_URL photo; T := photo_type (OriginalSize_URL photo);
     ResCaption := OriginalSize_URL photo |}.

Definition video_resource (p : Post) : list Resource :=
  if negb (String.eqb (VideoURL p) "") then
    [ {| URL := VideoURL p; T := TVIDEO; ResCaption := VideoURL p |} ]
  else [].

(** The photos of a post that are not on the block list of [user]. *)
Definition unblocked (db : Store) (user : string) (photos : list PostPhoto)
  : list PostPhoto :=
  List.filter (fun photo => negb (is_blocked_url db user (OriginalSize_URL photo)))
    photos.

(** [later f f']: the fetcher [f'] is [f] after any number of calls of the
    exported methods, with any arguments, clock readings and answers of
    the remote and of the store. *)
Inductive later (f : TumblrFetcher) : TumblrFetcher -> Prop :=
| later_now : later f f
| later_GetPush f' get unm now werr userid followings :
    later f f' ->
    later f (snd (GetPush get unm now werr f' userid followings))
| later_GoBack f' now werr userid back :
    later f f' -> later f (snd (GoBack now werr f' userid back))
| later_Block f' werr userid caption :
    later f f' -> later f (snd (Block werr f' userid caption)).

(** A message as the dispatcher can send it without loss: no error, at
    least one resource, every kind recognized. *)
Definition wellformed (m : ReplyMessage) : Prop :=
  Err m = None /\ Resources m <> [] /\ forallb recognized (Resources m) = true.

(** The key under which the loop looks a post up, for each post it
    reaches. *)
Definition enumerated_keys (user : string) (time : Z) (posts : list Post)
  : list string :=
  List.map (msgid_of user) (enumerated time posts).

(** The message line 155 builds for a post. *)
Definition message_of (db : Store) (user : string) (p : Post) : ReplyMessage :=
  {| Resources := post_resources db user p; Caption := ShortURL p; Err := None |}.

(** How many times the byte [c] occurs in [s]. *)
Fixpoint count_byte (c : ascii) (s : string) : nat :=
  match s with
  | EmptyString => 0
  | String b rest => (if Ascii.eqb b c then 1 else 0) + count_byte c rest
  end.

(** The album lines 98-106 build from a batch: the entries of the
    recognized kinds, in order. *)
Definition kept (caption : string) (rs : list Resource) : list InputMedia :=
  List.map (media_of caption) (List.filter recognized rs).

(** The answers of the transport to the calls [calls], made one after the
    other once [log] has been made. *)
Fixpoint answers (bot : Transport) (log : list BotCall) (calls : list BotCall)
  : list (option error) :=
  match calls with
  | [] => []
  | c :: rest => bot log c :: answers bot (log ++ [c]) rest
  end.

(** The last error among answers, [ret] when there is none. *)
Fixpoint last_error (ret : option error) (ans : list (option error)) : option error :=
  match ans with
  | [] => ret
  | a :: rest => last_error (match a with Some e => Some e | None => ret end) rest
  end.

(** Inputs used in the examples below. *)

Fixpoint repeat_byte (c : ascii) (n : nat) : string :=
  match n with
  | O => EmptyString
  | S n => String c (repeat_byte c n)
  end.

Definition no_store : Store :=
  {| last_update := ∅; block := ∅; journal := [] |}.

(** A reblog, id 999, whose trail has the single entry of the original
    post "12345". *)
Definition reblog_999 : Post :=
  {| Type_ := "photo"; ID := 999; Timestamp := 500;
     ShortURL := "https://tmblr.co/Zabc";
     Trail := [ {| Post_ID := IString "12345" |} ];
     VideoURL := "";
     Photos := [ {| OriginalSize_URL := "https://66.media.tumblr.com/abcfrag/tumblr_1.jpg" |} ] |}.

(** A fetcher with a credential, an empty store and an empty cache. *)
Definition fresh : TumblrFetcher :=
  {| DB := no_store; OAuthConsumerKey := "key"; cache := ∅ |}.

(** A remote whose feed is one photo post dated 3000. *)
Definition post_3000 : Post :=
  {| Type_ := "photo"; ID := 7; Timestamp := 3000;
     ShortURL := "https://tmblr.co/Zdef"; Trail := []; VideoURL := "";
     Photos := [ {| OriginalSize_URL := "https://66.media.tumblr.com/h1/tumblr_2.jpg" |} ] |}.

Definition get_body : string -> error + string := fun _ => inr "{}".

Definition decode_3000 : string -> error + TumblrPosts :=
  fun _ => inr {| Meta_Status := 200; Response_Posts := [post_3000] |}.

(** A remote whose feed is one post with two photos and no video. *)
Definition post_two_photos : Post :=
  {| Type_ := "photo"; ID := 8; Timestamp := 3000;
     ShortURL := "https://tmblr.co/Zghi"; Trail := []; VideoURL := "";
     Photos := [ {| OriginalSize_URL := "https://66.media.tumblr.com/abcfrag/tumblr_3.jpg" |};
                 {| OriginalSize_URL := "https://66.media.tumblr.com/h1/tumblr_4.gif" |} ] |}.

Definition decode_two_photos : string -> error + TumblrPosts :=
  fun _ => inr {| Meta_Status := 200; Response_Posts := [post_two_photos] |}.

(** A video post with neither photos nor a video URL. *)
Definition post_bare : Post :=
  {| Type_ := "video"; ID := 9; Timestamp := 3000;
     ShortURL := "https://tmblr.co/Zjkl"; Trail := []; VideoURL := "";
     Photos := [] |}.

(** A transport that accepts every call. *)
Definition accept_all : Transport := fun _ _ => None.

(** A transport that answers a nil media as telebot's [Bot.Send] answers
    a value it has no case for, with its unsupported-sendable error and
    nothing sent, and accepts every other call. *)
Definition refuse_nil : Transport :=
  fun _ c =>
    match c with
    | Bot_Send _ (SendMedia None) => Some "telebot: unsupported sendable"
    | _ => None
    end.

(** A message of 23 images. *)
Definition message_23 : ReplyMessage :=
  {| Resources :=
       List.map (fun k => {| URL := "https://h/" +:+ pretty k; T := TIMAGE;
                             ResCaption := "" |}) (seq 0 23);
     Caption := "https://tmblr.co/Zabc"; Err := None |}.

(** A photo post with one photo, of the given id and date. *)
Definition photo_post (id ts : Z) : Post :=
  {| Type_ := "photo"; ID := id; Timestamp := ts;
     ShortURL := "https://tmblr.co/Z" +:+ pretty id; Trail := []; VideoURL := "";
     Photos := [ {| OriginalSize_URL := "https://66.media.tumblr.com/h" +:+ pretty id
                                          +:+ "/tumblr.jpg" |} ] |}.

(** A remote where the request for the blog "bad" times out. *)
Definition get_but_bad : string -> error + string :=
  fun url => if String.eqb url (api_url "bad" "key") then inl "timeout" else inr "{}".

(** A transport that refuses the second call it gets. *)
Definition refuse_second : Transport :=
  fun log _ => if (List.length log =? 1)%nat then Some "flood" else None.

(** Twelve resources, the first ten of an unknown kind. *)
Definition message_mixed : ReplyMessage :=
  {| Resources :=
       List.map (fun k => {| URL := "https://h/" +:+ pretty k;
                             T := if (k <? 10)%nat then TOTHER 7 else TIMAGE;
                             ResCaption := "" |}) (seq 0 12);
     Caption := "c"; Err := None |}.

(** * Properties *)

#[local] Set Warnings "-clear-no-such-hyp".

(** ** Canonical item identity (lines 111-124) *)

Lemma trail_head_lookup (p : Post) :
  (1 <? List.length (Trail p))%nat = true ->
  exists t0 t1 rest, Trail p = t0 :: t1 :: rest.
Proof.
  intros H. apply Nat.ltb_lt in H.
  destruct (Trail p) as [|t0 [|t1 rest]]; simpl in H; try lia.
  eauto.
Qed.

(** With two or more trail entries the id is that of the first entry: its
    string when non-empty, its int64 when non-zero, else the post's own. *)
Lemma canonical_id_long_trail (p : Post) (t0 t1 : TrailEntry) (rest : list TrailEntry) :
  Trail p = t0 :: t1 :: rest ->
  canonical_id p =
    match Post_ID t0 with
    | IString s => if String.eqb s "" then FormatInt (ID p) else s
    | IInt64 n => if n =? 0 then FormatInt (ID p) else FormatInt n
    | IOther => FormatInt (ID p)
    end.
Proof.
  intros Ht. unfold canonical_id. rewrite Ht. simpl.
  destruct (Post_ID t0) as [s|n|]; simpl; try reflexivity.
  - destruct (String.eqb s ""); reflexivity.
  - destruct (n =? 0); reflexivity.
Qed.

(** With no trail, or a trail of one entry, the guard [len(p.Trail) > 1]
    fails and the id is the post's own. *)
Lemma canonical_id_short_trail (p : Post) :
  (List.length (Trail p) <= 1)%nat -> canonical_id p = FormatInt (ID p).
Proof.
  intros H. unfold canonical_id.
  destruct (1 <? List.length (Trail p))%nat eqn:E; [|reflexivity].
  apply Nat.ltb_lt in E. lia.
Qed.

(** C1: the reblog 999 of the original "12345", trail of one entry, is
    remembered under its own id 999: fetched for blog "b" when the cache
    already holds "b@12345", it is emitted again and "b@999" is added. *)
Theorem reblog_single_trail_not_deduped :
  canonical_id reblog_999 = "999" /\
  msgid_of "b" reblog_999 <> "b@12345" /\
  let '(ret, c) :=
    range_posts no_store "b" 0 [reblog_999] [] {[ "b@12345" := true ]} in
  List.length ret = 1%nat /\ c !! "b@999" = Some true.
Proof.
  split; [reflexivity|]. split; [discriminate|].
  vm_compute. split; reflexivity.
Qed.

(** ** Caption truncation (lines 65-68) *)

Lemma substring_0_length (n : nat) (s : string) :
  (n <= String.length s)%nat -> String.length (substring 0 n s) = n.
Proof.
  revert s. induction n as [|n IH]; intros s H.
  - destruct s; reflexivity.
  - destruct s as [|c s]; simpl in *; [lia|].
    rewrite IH; [reflexivity|lia].
Qed.

Lemma substring_0_prefix (n : nat) (s : string) :
  String.prefix (substring 0 n s) s = true.
Proof.
  revert s. induction n as [|n IH]; intros s.
  - destruct s; reflexivity.
  - destruct s as [|c s]; simpl; [reflexivity|].
    destruct (ascii_dec c c); [apply IH|congruence].
Qed.

Lemma prefix_refl (s : string) : String.prefix s s = true.
Proof.
  induction s as [|c s IH]; simpl; [reflexivity|].
  destruct (ascii_dec c c); [exact IH|congruence].
Qed.

(** Off the length 190 the truncation succeeds, and what it yields is a
    prefix of the caption, at most 191 bytes long. *)
Lemma truncate_caption_ok (caption : string) :
  String.length caption <> 190%nat ->
  exists c, truncate_caption caption = Some c /\
            String.prefix c caption = true /\
            (String.length c <= 191)%nat.
Proof.
  intros H. unfold truncate_caption, slice_to.
  destruct (190 <=? String.length caption)%nat eqn:E.
  - apply Nat.leb_le in E.
    assert (Hle : (191 <=? String.length caption)%nat = true)
      by (apply Nat.leb_le; lia).
    rewrite Hle. eexists. split; [reflexivity|]. split.
    + apply substring_0_prefix.
    + rewrite substring_0_length; [lia|]. apply Nat.leb_le in Hle. exact Hle.
  - apply Nat.leb_gt in E. exists caption. split; [reflexivity|].
    split; [apply prefix_refl|lia].
Qed.

(** At length 190 the guard [>= 190] lets the slice [[:191]] run on a
    string it does not fit. *)
Lemma truncate_caption_190 (caption : string) :
  String.length caption = 190%nat -> truncate_caption caption = None.
Proof.
  intros H. unfold truncate_caption, slice_to. rewrite H. reflexivity.
Qed.

(** C2: a single-image message whose caption is 190 bytes long: [Send]
    panics in the slice expression and nothing reaches the transport. *)
Theorem Send_caption_190_panics :
  String.length (repeat_byte "a" 190) = 190%nat /\
  Send accept_all "chat"
    {| Resources := [ {| URL := "u"; T := TIMAGE; ResCaption := "u" |} ];
       Caption := repeat_byte "a" 190; Err := None |}
  = ([], Panicked).
Proof. split; vm_compute; reflexivity. Qed.

(** ** Single resource of an unknown kind (lines 69-79) *)

(** The error built in the last branch is overwritten by the result of
    [Bot.Send], which is called with the nil [mediaFile]: [Send] returns
    whatever the transport answers to that call. *)
Lemma Send_unknown_kind_reaches_transport (bot : Transport) (to : Recipient)
    (message : ReplyMessage) (r : Resource) (n : Z) (caption : string) :
  Err message = None ->
  Resources message = [r] ->
  T r = TOTHER n ->
  truncate_caption (Caption message) = Some caption ->
  Send bot to message =
    ([Bot_Send to (SendMedia None)],
     Returned (bot [] (Bot_Send to (SendMedia None)))).
Proof.
  intros He Hr Ht Hc. unfold Send. rewrite He, Hr, Hc. simpl.
  rewrite Ht. simpl. reflexivity.
Qed.

(** Through a transport that refuses a nil media with the error [e], and
    with a caption the truncation accepts, the one call made carries no
    media and [Send] returns [e]: the item is not sent and its caller
    gets an error. *)
Lemma Send_unknown_kind_refused (bot : Transport) (to : Recipient)
    (message : ReplyMessage) (r : Resource) (n : Z) (e : error) :
  Err message = None ->
  Resources message = [r] ->
  T r = TOTHER n ->
  String.length (Caption message) <> 190%nat ->
  bot [] (Bot_Send to (SendMedia None)) = Some e ->
  Send bot to message = ([Bot_Send to (SendMedia None)], Returned (Some e)).
Proof.
  intros He Hr Ht Hlen Hbot.
  destruct (truncate_caption_ok (Caption message) Hlen) as (c & Hc & _).
  rewrite (Send_unknown_kind_reaches_transport bot to message r n c He Hr Ht Hc).
  rewrite Hbot. reflexivity.
Qed.

Example Send_unknown_kind_refused_example :
  Send refuse_nil "chat"
    {| Resources := [ {| URL := "u"; T := TOTHER 2; ResCaption := "u" |} ];
       Caption := "c"; Err := None |}
  = ([Bot_Send "chat" (SendMedia None)],
     Returned (Some "telebot: unsupported sendable")).
Proof. reflexivity. Qed.

(** C3: a message whose single resource is of an unknown kind and whose
    caption is 190 bytes long: [Send] panics in the slice expression of
    line 67, before it looks at the kind, and returns no error to its
    caller. *)
Theorem Send_unknown_kind_caption_190_panics :
  String.length (repeat_byte "a" 190) = 190%nat /\
  Send refuse_nil "chat"
    {| Resources := [ {| URL := "u"; T := TOTHER 2; ResCaption := "u" |} ];
       Caption := repeat_byte "a" 190; Err := None |}
  = ([], Panicked).
Proof. split; vm_compute; reflexivity. Qed.

(** ** Albums (lines 91-114) *)

Section Albums.

Variable bot : Transport.
Variable to : Recipient.
Variable message : ReplyMessage.

Local Abbreviation len := (List.length (Resources message)).
Local Abbreviation media := (List.map (media_of (Caption message)) (Resources message)).

Lemma range_album_recognized (rs : list Resource) (acc : list InputMedia) :
  forallb recognized rs = true ->
  range_album (Caption message) rs acc
  = acc ++ List.map (media_of (Caption message)) rs.
Proof.
  revert acc. induction rs as [|r rs IH]; intros acc H; simpl.
  - symmetry. apply app_nil_r.
  - simpl in H. apply andb_true_iff in H as [Hr Hrs].
    unfold recognized in Hr. unfold media_of.
    destruct (ResourceType_eqb (T r) TIMAGE) eqn:E1.
    + rewrite IH by exact Hrs. rewrite <- app_assoc. reflexivity.
    + simpl in Hr. rewrite Hr. rewrite IH by exact Hrs.
      rewrite <- app_assoc. reflexivity.
Qed.

Lemma forallb_take_drop (n i : nat) (rs : list Resource) :
  forallb recognized rs = true ->
  forallb recognized (take n (drop i rs)) = true.
Proof.
  intros H. apply forallb_forall. intros r Hin.
  rewrite forallb_forall in H. apply H.
  rewrite <- (firstn_skipn i rs). apply in_or_app. right.
  rewrite <- (firstn_skipn n (drop i rs)). apply in_or_app. left. exact Hin.
Qed.

(** One more unit of fuel changes nothing once the fuel covers the
    resources that are left: the loop ends by itself. *)
Lemma range_batches_fuel (fuel i : nat) (ret : option error) (log : list BotCall) :
  (len - i <= fuel)%nat ->
  range_batches bot (S fuel) to message i ret log
  = range_batches bot fuel to message i ret log.
Proof.
  revert i ret log. induction fuel as [|fuel IH]; intros i ret log H.
  - cbn [range_batches].
    destruct (i <? len)%nat eqn:E; [|reflexivity].
    apply Nat.ltb_lt in E. lia.
  - change (range_batches bot (S (S fuel)) to message i ret log)
      with (if (i <? len)%nat then
              let end_ := (i + MaxAlbumSize)%nat in
              let end_ := if (len <? end_)%nat then len else end_ in
              let mediaFiles :=
                range_album (Caption message)
                  (take (end_ - i) (drop i (Resources message))) [] in
              let '(log, err) := call bot log (Bot_SendAlbum to mediaFiles) in
              let ret := match err with Some e => Some e | None => ret end in
              range_batches bot (S fuel) to message (i + MaxAlbumSize)%nat ret log
            else (log, ret)).
    change (range_batches bot (S fuel) to message i ret log)
      with (if (i <? len)%nat then
              let end_ := (i + MaxAlbumSize)%nat in
              let end_ := if (len <? end_)%nat then len else end_ in
              let mediaFiles :=
                range_album (Caption message)
                  (take (end_ - i) (drop i (Resources message))) [] in
              let '(log, err) := call bot log (Bot_SendAlbum to mediaFiles) in
              let ret := match err with Some e => Some e | None => ret end in
              range_batches bot fuel to message (i + MaxAlbumSize)%nat ret log
            else (log, ret)).
    destruct (i <? len)%nat eqn:E; [|reflexivity].
    cbv zeta. unfold call.
    apply IH. unfold MaxAlbumSize. lia.
Qed.

(** The [k]-th album: the entries 10k .. 10k+9 of the message, those
    that exist. *)
Local Abbreviation album_at :=
  (fun k : nat => Bot_SendAlbum to (take 10 (drop (10 * k) media))).

Lemma batch_slice (i : nat) :
  forallb recognized (Resources message) = true ->
  (i < len)%nat ->
  range_album (Caption message)
    (take ((if (len <? i + MaxAlbumSize)%nat then len else (i + MaxAlbumSize)%nat) - i)
          (drop i (Resources message))) []
  = take 10 (drop i media).
Proof.
  intros Hrec Hi. rewrite range_album_recognized by (apply forallb_take_drop; exact Hrec).
  cbn [app]. rewrite skipn_map, firstn_map. f_equal.
  unfold MaxAlbumSize.
  destruct (len <? i + 10)%nat eqn:E.
  - apply Nat.ltb_lt in E.
    rewrite !take_ge; [reflexivity| |]; rewrite length_drop; lia.
  - f_equal. lia.
Qed.

Lemma nbatches_done (k : nat) :
  (len <= 10 * k)%nat -> ((len + 9) / 10 - k = 0)%nat.
Proof.
  intros H.
  assert (Hk : ((len + 9) / 10 < S k)%nat)
    by (apply Nat.Div0.div_lt_upper_bound; lia).
  lia.
Qed.

Lemma nbatches_more (k : nat) :
  (10 * k < len)%nat -> ((len + 9) / 10 - k = S ((len + 9) / 10 - S k))%nat.
Proof.
  intros H.
  assert (Hk : (S k <= (len + 9) / 10)%nat)
    by (apply Nat.div_le_lower_bound; lia).
  lia.
Qed.

Lemma range_batches_log (fuel k : nat) (ret : option error) (log : list BotCall) :
  forallb recognized (Resources message) = true ->
  (len - 10 * k <= fuel)%nat ->
  fst (range_batches bot fuel to message (10 * k) ret log)
  = log ++ List.map album_at (seq k ((len + 9) / 10 - k)).
Proof.
  intros Hrec. revert k ret log.
  induction fuel as [|fuel IH]; intros k ret log H.
  - rewrite nbatches_done by lia. cbn [range_batches fst seq List.map].
    symmetry. apply app_nil_r.
  - remember (10 * k)%nat as i eqn:Hi.
    cbn [range_batches].
    destruct (i <? len)%nat eqn:E.
    + apply Nat.ltb_lt in E.
      cbv zeta. rewrite (batch_slice i Hrec E). unfold call.
      replace (i + MaxAlbumSize)%nat with (10 * S k)%nat
        by (unfold MaxAlbumSize; lia).
      rewrite IH by lia.
      rewrite (nbatches_more k) by lia.
      cbn [seq List.map]. rewrite <- app_assoc.
      rewrite <- Hi. reflexivity.
    + apply Nat.ltb_ge in E. rewrite nbatches_done by lia.
      cbn [fst seq List.map]. symmetry. apply app_nil_r.
Qed.

End Albums.

Lemma albums_of_map (to : Recipient) (f : nat -> list InputMedia) (ks : list nat) :
  albums_of (List.map (fun k => Bot_SendAlbum to (f k)) ks) = List.map f ks.
Proof.
  induction ks as [|k ks IH]; [reflexivity|].
  cbn [List.map]. change (albums_of (Bot_SendAlbum to (f k) :: List.map (fun k => Bot_SendAlbum to (f k)) ks))
    with (f k :: albums_of (List.map (fun k => Bot_SendAlbum to (f k)) ks)).
  rewrite IH. reflexivity.
Qed.

Lemma concat_slices (l : list InputMedia) (k m : nat) :
  List.concat (List.map (fun j => take 10 (drop (10 * j) l)) (seq k m))
  = take (10 * m) (drop (10 * k) l).
Proof.
  revert k. induction m as [|m IH]; intros k.
  - rewrite Nat.mul_0_r. reflexivity.
  - cbn [seq List.map List.concat]. rewrite IH.
    replace (10 * S m)%nat with (10 + 10 * m)%nat by lia.
    replace (10 * S k)%nat with (10 * k + 10)%nat by lia.
    rewrite <- drop_drop. apply take_take_drop.
Qed.

(** C7: a message without error whose two or more resources all have a
    recognized kind.  [Send] returns, and its calls of the transport are
    exactly one [SendAlbum] per slice 10k .. 10k+9 of the resources, in
    order: the albums put end to end are the resources, each album has
    between 1 and 10 entries, and 23 resources go out as 10, 10 and 3. *)
Theorem Send_albums_in_batches (bot : Transport) (to : Recipient)
    (message : ReplyMessage) :
  Err message = None ->
  (2 <= List.length (Resources message))%nat ->
  forallb recognized (Resources message) = true ->
  let media := List.map (media_of (Caption message)) (Resources message) in
  let n := List.length (Resources message) in
  (exists err, snd (Send bot to message) = Returned err) /\
  fst (Send bot to message)
  = List.map (fun k => Bot_SendAlbum to (take 10 (drop (10 * k) media)))
      (seq 0 ((n + 9) / 10)) /\
  List.concat (albums_of (fst (Send bot to message))) = media /\
  Forall (fun s => (1 <= s <= 10)%nat) (album_sizes (fst (Send bot to message))) /\
  (n = 23%nat -> album_sizes (fst (Send bot to message)) = [10; 10; 3]%nat).
Proof.
  intros He Hlen Hrec media n.
  assert (Hlog : fst (Send bot to message)
    = List.map (fun k => Bot_SendAlbum to (take 10 (drop (10 * k) media)))
        (seq 0 ((n + 9) / 10))).
  { unfold Send. rewrite He.
    destruct (List.length (Resources message) =? 1)%nat eqn:E1;
      [apply Nat.eqb_eq in E1; lia|].
    destruct (List.length (Resources message) =? 0)%nat eqn:E0;
      [apply Nat.eqb_eq in E0; lia|].
    pose proof (range_batches_log bot to message
                  (List.length (Resources message)) 0 None [] Hrec) as H.
    rewrite Nat.mul_0_r, Nat.sub_0_r in H. specialize (H (Nat.le_refl _)).
    change (10 * 0)%nat with 0%nat in H.
    destruct (range_batches bot (List.length (Resources message)) to message 0 None [])
      as [log ret] eqn:Er.
    cbn [fst] in *. rewrite H, Nat.sub_0_r. reflexivity. }
  split.
  { unfold Send. rewrite He.
    destruct (List.length (Resources message) =? 1)%nat eqn:E1;
      [apply Nat.eqb_eq in E1; lia|].
    destruct (List.length (Resources message) =? 0)%nat eqn:E0;
      [apply Nat.eqb_eq in E0; lia|].
    destruct (range_batches bot (List.length (Resources message)) to message 0 None [])
      as [log ret]. eexists. reflexivity. }
  split; [exact Hlog|].
  assert (Hn : List.length media = n) by (unfold media; apply length_map).
  split.
  { rewrite Hlog, albums_of_map, concat_slices. rewrite Nat.mul_0_r.
    cbn [drop]. apply take_ge. rewrite Hn.
    pose proof (Nat.div_mod_eq (n + 9) 10) as Hd.
    pose proof (Nat.mod_upper_bound (n + 9) 10 ltac:(lia)). lia. }
  split.
  { unfold album_sizes. rewrite Hlog, albums_of_map, List.map_map.
    apply Forall_forall. intros s Hs. apply list_elem_of_In in Hs.
    apply in_map_iff in Hs as [k [<- Hk]]. apply in_seq in Hk.
    rewrite length_take, length_drop, Hn.
    assert (10 * k < n)%nat.
    { pose proof (Nat.div_mod_eq (n + 9) 10) as Hd.
      pose proof (Nat.mod_upper_bound (n + 9) 10 ltac:(lia)). lia. }
    lia. }
  intros H23. unfold album_sizes. rewrite Hlog, albums_of_map, List.map_map.
  rewrite H23. change ((23 + 9) / 10)%nat with 3%nat. cbn [seq List.map].
  rewrite !length_take, !length_drop, Hn, H23. reflexivity.
Qed.

Lemma Send_albums_in_batches_witness :
  album_sizes (fst (Send accept_all "chat" message_23)) = [10; 10; 3]%nat.
Proof.
  apply (Send_albums_in_batches accept_all "chat" message_23);
    [reflexivity | vm_compute; lia | reflexivity | reflexivity].
Defined.

(** ** Manual cursor adjustment ([GoBack], lines 180-186) *)

Lemma wrap64_id (z : Z) : in_int64 z -> wrap64 z = z.
Proof.
  unfold in_int64, int64_min, int64_max, wrap64. intros H.
  rewrite Z.mod_small; lia.
Qed.

(** C8, as the code has it: when [back] exceeds [now] the call answers
    "Back too long!" and the fetcher is untouched; otherwise it issues one
    write of the cursor, [now - back] computed in int64, and returns the
    answer of the store; once the store commits, the cursor is that
    value, which is [now - back] whenever that fits in an int64 (so for
    every [back] from 0 to [now]). *)
Theorem GoBack_spec (now : Z) (werr : option error) (f : TumblrFetcher)
    (userid : string) (back : Z) :
  in_int64 now -> in_int64 back ->
  (now < back ->
     GoBack now werr f userid back = (Some "Back too long!", f)) /\
  (back <= now ->
     fst (GoBack now werr f userid back) = werr /\
     journal (DB (snd (GoBack now werr f userid back)))
       = journal (DB f) ++ [SetLastUpdate userid (sub64 now back)] /\
     block (DB (snd (GoBack now werr f userid back))) = block (DB f) /\
     cache (snd (GoBack now werr f userid back)) = cache f /\
     (werr = None ->
        last_update (DB (snd (GoBack now werr f userid back)))
        = <[userid := sub64 now back]> (last_update (DB f))) /\
     (werr <> None ->
        last_update (DB (snd (GoBack now werr f userid back)))
        = last_update (DB f)) /\
     (now - back <= int64_max -> sub64 now back = now - back)).
Proof.
  intros Hn Hb. split.
  - intros H. unfold GoBack. apply Z.ltb_lt in H. rewrite H. reflexivity.
  - intros H. unfold GoBack.
    destruct (now <? back) eqn:E; [apply Z.ltb_lt in E; lia|].
    destruct werr as [e|]; simpl; repeat split; try congruence.
    + intros Hle. unfold sub64. apply wrap64_id.
      unfold in_int64, int64_min in *. lia.
    + intros Hle. unfold sub64. apply wrap64_id.
      unfold in_int64, int64_min in *. lia.
Qed.

Lemma GoBack_spec_witness :
  last_update (DB (snd (GoBack 1700000000 None fresh "user" 3600))) !! "user"
    = Some 1699996400 /\
  GoBack 1700000000 None fresh "user" 99999999999
    = (Some "Back too long!", fresh).
Proof.
  assert (Hn : in_int64 1700000000) by (unfold in_int64, int64_min, int64_max; lia).
  assert (H1 : in_int64 3600) by (unfold in_int64, int64_min, int64_max; lia).
  assert (H2 : in_int64 99999999999) by (unfold in_int64, int64_min, int64_max; lia).
  split.
  - destruct (GoBack_spec 1700000000 None fresh "user" 3600 Hn H1) as [_ H].
    destruct (H ltac:(lia)) as (_ & _ & _ & _ & Hs & _ & Hv).
    rewrite (Hs eq_refl), (Hv ltac:(unfold int64_max; lia)).
    apply lookup_insert_eq.
  - destruct (GoBack_spec 1700000000 None fresh "user" 99999999999 Hn H2) as [H _].
    apply H. lia.
Defined.

(** C8, as stated, fails for a very negative [back]: the subtraction
    wraps, and the cursor stored is not [now - back]. *)
Lemma GoBack_wraps :
  in_int64 (-9223372036854775808) /\
  last_update (DB (snd (GoBack 1700000000 None fresh "user" (-9223372036854775808))))
    !! "user" = Some (-9223372035154775808) /\
  -9223372035154775808 <> 1700000000 - (-9223372036854775808).
Proof.
  split; [unfold in_int64, int64_min, int64_max; lia|].
  split; [|lia].
  vm_compute. reflexivity.
Qed.

(** ** The block command ([Block], lines 188-196) *)

(** C9: with fewer than 4 pieces the answer is "Unrecognized image
    caption." and the fetcher, journal included, is untouched; with 4 or
    more, one write of [true] under userid@piece4 is issued, the answer is
    that key followed by " blocked.", and once the store commits the
    entry is in the block bucket. *)
Theorem Block_spec (werr : option error) (f : TumblrFetcher)
    (userid caption : string) :
  let strsplit := Split caption "/" in
  let imghash := Sprintf_at userid (nth 3 strsplit EmptyString) in
  ((List.length strsplit < 4)%nat ->
     Block werr f userid caption = ("Unrecognized image caption.", f)) /\
  ((4 <= List.length strsplit)%nat ->
     fst (Block werr f userid caption) = imghash +:+ " blocked." /\
     journal (DB (snd (Block werr f userid caption)))
       = journal (DB f) ++ [SetBlock imghash true] /\
     last_update (DB (snd (Block werr f userid caption))) = last_update (DB f) /\
     cache (snd (Block werr f userid caption)) = cache f /\
     (werr = None ->
        block (DB (snd (Block werr f userid caption)))
        = <[imghash := true]> (block (DB f)))).
Proof.
  intros strsplit imghash. unfold Block. fold strsplit. split.
  - intros H. apply Nat.leb_gt in H. rewrite H. reflexivity.
  - intros H. apply Nat.leb_le in H. rewrite H. fold imghash.
    destruct werr as [e|]; simpl; repeat split; congruence.
Qed.

Lemma Block_spec_witness :
  Block None fresh "user" "plain text" = ("Unrecognized image caption.", fresh) /\
  fst (Block None fresh "user" "https://66.media.tumblr.com/abcfrag/tumblr_1.jpg")
    = "user@abcfrag blocked." /\
  block (DB (snd (Block None fresh "user"
                    "https://66.media.tumblr.com/abcfrag/tumblr_1.jpg")))
    !! "user@abcfrag" = Some true.
Proof.
  split; [|split].
  - apply (Block_spec None fresh "user" "plain text"). vm_compute. lia.
  - apply (Block_spec None fresh "user"
             "https://66.media.tumblr.com/abcfrag/tumblr_1.jpg").
    vm_compute. lia.
  - destruct (Block_spec None fresh "user"
                "https://66.media.tumblr.com/abcfrag/tumblr_1.jpg") as [_ H].
    destruct (H ltac:(vm_compute; lia)) as (_ & _ & _ & _ & Hb).
    rewrite (Hb eq_refl). apply lookup_insert_eq.
Defined.

(** C10: with 4 or more pieces the answer does not depend on what the
    store says to the write; when the store refuses it, the answer is
    still the confirmation and the block bucket is as it was. *)
Theorem Block_confirms_unconditionally (werr : option error) (e : error)
    (f : TumblrFetcher) (userid caption : string) :
  (4 <= List.length (Split caption "/"))%nat ->
  let imghash := Sprintf_at userid (nth 3 (Split caption "/") EmptyString) in
  fst (Block werr f userid caption) = imghash +:+ " blocked." /\
  fst (Block (Some e) f userid caption) = imghash +:+ " blocked." /\
  block (DB (snd (Block (Some e) f userid caption))) = block (DB f).
Proof.
  intros H imghash. unfold Block. apply Nat.leb_le in H. rewrite H.
  fold imghash. destruct werr; simpl; repeat split.
Qed.

Lemma Block_confirms_unconditionally_witness :
  fst (Block (Some "disk full") fresh "user"
         "https://66.media.tumblr.com/abcfrag/tumblr_1.jpg")
    = "user@abcfrag blocked." /\
  block (DB (snd (Block (Some "disk full") fresh "user"
                    "https://66.media.tumblr.com/abcfrag/tumblr_1.jpg")))
    !! "user@abcfrag" = None.
Proof.
  destruct (Block_confirms_unconditionally None "disk full" fresh "user"
              "https://66.media.tumblr.com/abcfrag/tumblr_1.jpg")
    as (_ & Hm & Hb); [vm_compute; lia|].
  split; [exact Hm|].
  exact (f_equal (fun m : gmap string bool => m !! "user@abcfrag") Hb).
Defined.

(** ** Duplicate suppression (lines 124-156) *)

Section Dedup.

Variable db : Store.
Variable user : string.
Variable time : Z.






End Dedup.

Section FetchTwice.

Variable HTTPGet : string -> error + string.
Variable Unmarshal : string -> error + TumblrPosts.

(** [getUserTimeline] reads the store and the credential, and writes
    neither. *)
Lemma getUserTimeline_frame (f : TumblrFetcher) (user : string) (time : Z) :
  DB (snd (getUserTimeline HTTPGet Unmarshal f user time)) = DB f /\
  OAuthConsumerKey (snd (getUserTimeline HTTPGet Unmarshal f user time))
  = OAuthConsumerKey f.
Proof.
  unfold getUserTimeline.
  destruct (String.eqb (OAuthConsumerKey f) ""); [split; reflexivity|].
  destruct (HTTPGet _) as [e|body]; [split; reflexivity|].
  destruct (Unmarshal body) as [e|posts]; [split; reflexivity|].
  destruct (negb (Meta_Status posts =? 200)); [split; reflexivity|].
  destruct (range_posts _ _ _ _ _ _); split; reflexivity.
Qed.



End FetchTwice.

Example fetch_twice_example :
  let r1 := getUserTimeline get_body decode_3000 fresh "blog" 0 in
  let r2 := getUserTimeline get_body decode_3000 (snd r1) "blog" 0 in
  List.length (fst (fst r1)) = 1%nat /\ fst (fst r2) = [] /\
  cache (snd r2) !! "blog@7" = Some true.
Proof. vm_compute. repeat split; reflexivity. Qed.

Example bare_post_marked :
  range_posts no_store "blog" 0 [post_bare] [] ∅ = ([], {[ "blog@9" := true ]}).
Proof. reflexivity. Qed.

(** ** The push ([GetPush], lines 162-178) *)

Section Push.

Variable HTTPGet : string -> error + string.
Variable Unmarshal : string -> error + TumblrPosts.

Lemma range_followings_frame (f : TumblrFetcher) (last : Z)
    (followings : list string) (ret : list ReplyMessage) :
  DB (snd (range_followings HTTPGet Unmarshal f last followings ret)) = DB f.
Proof.
  revert f ret. induction followings as [|follow rest IH]; intros f ret.
  - reflexivity.
  - cbn [range_followings].
    pose proof (getUserTimeline_frame HTTPGet Unmarshal f follow last) as [Hdb _].
    destruct (getUserTimeline HTTPGet Unmarshal f follow last) as [[single err] f1].
    cbn [snd] in Hdb. rewrite IH. exact Hdb.
Qed.

(** A source whose fetch fails adds nothing and changes nothing. *)
Lemma range_followings_all_fail (f : TumblrFetcher) (last : Z)
    (followings : list string) (ret : list ReplyMessage) :
  (forall follow, In follow followings ->
     exists e, getUserTimeline HTTPGet Unmarshal f follow last = (([], Some e), f)) ->
  range_followings HTTPGet Unmarshal f last followings ret = (ret, f).
Proof.
  revert ret. induction followings as [|follow rest IH]; intros ret H.
  - reflexivity.
  - cbn [range_followings].
    destruct (H follow (or_introl eq_refl)) as [e He]. rewrite He.
    apply IH. intros g Hg. apply H. right. exact Hg.
Qed.

(** C5, as the code has it: the cursor is written, with the current
    time, exactly when the returned sequence is not empty; an empty
    result, as when every source fails, leaves the store as it was; and
    the write does not lower the cursor as long as the stored cursor is
    not ahead of the current time. *)
Theorem GetPush_cursor (now : Z) (werr : option error) (f : TumblrFetcher)
    (userid : string) (followings : list string) :
  let ret := fst (GetPush HTTPGet Unmarshal now werr f userid followings) in
  let f' := snd (GetPush HTTPGet Unmarshal now werr f userid followings) in
  (ret = [] -> DB f' = DB f) /\
  (ret <> [] ->
     journal (DB f') = journal (DB f) ++ [SetLastUpdate userid now] /\
     block (DB f') = block (DB f) /\
     (werr = None -> last_update (DB f') = <[userid := now]> (last_update (DB f))) /\
     (werr <> None -> last_update (DB f') = last_update (DB f))) /\
  ((forall follow, In follow followings ->
      exists e, getUserTimeline HTTPGet Unmarshal f follow
                  (default 0 (last_update (DB f) !! userid)) = (([], Some e), f)) ->
     ret = [] /\ f' = f) /\
  (forall old, last_update (DB f) !! userid = Some old -> old <= now ->
     exists new, last_update (DB f') !! userid = Some new /\ old <= new).
Proof.
  cbv zeta. unfold GetPush, DB_Get_last_update.
  set (last := match last_update (DB f) !! userid with Some v => v | None => 0 end).
  pose proof (range_followings_frame f last followings []) as Hdb.
  assert (Hall : (forall follow, In follow followings ->
      exists e, getUserTimeline HTTPGet Unmarshal f follow
                  (default 0 (last_update (DB f) !! userid)) = (([], Some e), f)) ->
      range_followings HTTPGet Unmarshal f last followings [] = ([], f)).
  { intros H. apply range_followings_all_fail. exact H. }
  destruct (range_followings HTTPGet Unmarshal f last followings []) as [ret f1].
  cbn [snd] in Hdb.
  destruct ret as [|m ret]; cbn [List.length Nat.eqb negb fst snd].
  - split; [intros _; exact Hdb|]. split; [intros H; congruence|].
    split; [intros H; specialize (Hall H); inversion Hall; split; reflexivity|].
    intros old Hold Hle. exists old. rewrite Hdb. split; [exact Hold|lia].
  - split; [intros H; discriminate|].
    split.
    { intros _. rewrite Hdb.
      destruct werr as [e|]; cbn; repeat split; congruence. }
    split; [intros H; specialize (Hall H); discriminate|].
    intros old Hold Hle. rewrite Hdb.
    destruct werr as [e|]; cbn.
    + exists old. split; [exact Hold|lia].
    + exists now. split; [apply lookup_insert_eq|exact Hle].
Qed.

End Push.

(** ** The block list in the fetch (lines 131-156, 188-196) *)

Lemma is_blocked_url_iff (db : Store) (user url : string) :
  is_blocked_url db user url = true <->
  (4 <= List.length (Split url "/"))%nat /\
  block db !! Sprintf_at user (nth 3 (Split url "/") EmptyString) = Some true.
Proof.
  unfold is_blocked_url, DB_Get_block.
  destruct (4 <=? List.length (Split url "/"))%nat eqn:E.
  - apply Nat.leb_le in E.
    destruct (block db !! _) as [[|]|].
    + split; [intros _; split; [exact E|reflexivity]|reflexivity].
    + split; [discriminate|intros [_ H]; discriminate].
    + split; [discriminate|intros [_ H]; discriminate].
  - apply Nat.leb_gt in E. split; [discriminate|]. intros [H _]. lia.
Qed.

Lemma range_photos_unblocked (db : Store) (user : string)
    (photos : list PostPhoto) (res : list Resource) :
  range_photos db user photos res
  = res ++ List.map photo_resource (unblocked db user photos).
Proof.
  revert res. induction photos as [|photo rest IH]; intros res; simpl.
  - symmetry. apply app_nil_r.
  - destruct (is_blocked_url db user (OriginalSize_URL photo)); simpl.
    + apply IH.
    + rewrite IH, <- app_assoc. reflexivity.
Qed.

Lemma post_resources_unblocked (db : Store) (user : string) (p : Post) :
  post_resources db user p
  = List.map photo_resource (unblocked db user (Photos p)) ++ video_resource p.
Proof.
  unfold post_resources, video_resource. rewrite range_photos_unblocked.
  destruct (negb (String.eqb (VideoURL p) "")); simpl.
  - reflexivity.
  - symmetry. apply app_nil_r.
Qed.

(** Every message the loop adds is the message of one of the posts. *)
Lemma range_posts_emitted (db : Store) (user : string) (time : Z)
    (posts : list Post) (ret : list ReplyMessage) (c : gmap string bool)
    (m : ReplyMessage) :
  In m (fst (range_posts db user time posts ret c)) ->
  In m ret \/
  exists p, In p posts /\
    m = {| Resources := post_resources db user p; Caption := ShortURL p;
           Err := None |}.
Proof.
  revert ret c. induction posts as [|p rest IH]; intros ret c H; simpl in H.
  - left. exact H.
  - destruct (negb (eligible p)).
    { destruct (IH _ _ H) as [Hl|[q [Hq Hm]]]; [left; exact Hl|].
      right. exists q. split; [right; exact Hq|exact Hm]. }
    destruct (Timestamp p <? time); [left; exact H|].
    destruct (c !! msgid_of user p).
    { destruct (IH _ _ H) as [Hl|[q [Hq Hm]]]; [left; exact Hl|].
      right. exists q. split; [right; exact Hq|exact Hm]. }
    destruct (IH _ _ H) as [Hl|[q [Hq Hm]]].
    + destruct (0 <? List.length (post_resources db user p))%nat;
        [|left; exact Hl].
      apply in_app_or in Hl as [Hl|[<-|[]]]; [left; exact Hl|].
      right. exists p. split; [left; reflexivity|reflexivity].
    + right. exists q. split; [right; exact Hq|exact Hm].
Qed.

(** A post not yet seen with at least one deliverable resource is
    emitted, as one message. *)
Lemma range_posts_unseen_emit (db : Store) (user : string) (time : Z)
    (p : Post) (rest : list Post) (ret : list ReplyMessage) (c : gmap string bool) :
  eligible p = true -> time <= Timestamp p ->
  c !! msgid_of user p = None ->
  post_resources db user p <> [] ->
  range_posts db user time (p :: rest) ret c
  = range_posts db user time rest
      (ret ++ [ {| Resources := post_resources db user p; Caption := ShortURL p;
                   Err := None |} ])
      (<[msgid_of user p := true]> c).
Proof.
  intros He Ht Hc Hr. simpl. rewrite He. simpl.
  destruct (Timestamp p <? time) eqn:E; [apply Z.ltb_lt in E; lia|].
  rewrite Hc.
  destruct (post_resources db user p) as [|r rs]; [congruence|reflexivity].
Qed.

(** No method removes a block entry or sets it to [false]. *)
Lemma later_block_kept (f f' : TumblrFetcher) (key : string) :
  later f f' -> block (DB f) !! key = Some true -> block (DB f') !! key = Some true.
Proof.
  intros Hl Hk. induction Hl as [|f' get unm now werr userid followings _ IH
                                 |f' now werr userid back _ IH
                                 |f' werr userid caption _ IH].
  - exact Hk.
  - unfold GetPush.
    pose proof (range_followings_frame get unm f'
                  (match DB_Get_last_update (DB f') userid with
                   | Some v => v | None => 0 end) followings []) as Hdb.
    destruct (range_followings _ _ _ _ _ _) as [ret f1]. cbn [snd] in Hdb.
    destruct (negb (List.length ret =? 0)%nat); cbn [snd].
    + destruct werr; cbn; rewrite Hdb; exact IH.
    + rewrite Hdb. exact IH.
  - unfold GoBack. destruct (now <? back); [exact IH|].
    destruct werr; cbn; exact IH.
  - unfold Block. destruct (4 <=? _)%nat; [|exact IH].
    destruct werr; cbn; [exact IH|].
    destruct (decide (Sprintf_at userid (nth 3 (Split caption "/") EmptyString) = key))
      as [->|Hne].
    + apply lookup_insert_eq.
    + rewrite lookup_insert_ne by exact Hne. exact IH.
Qed.

Lemma Block_records (f : TumblrFetcher) (user url : string) :
  (4 <= List.length (Split url "/"))%nat ->
  block (DB (snd (Block None f user url)))
    !! Sprintf_at user (nth 3 (Split url "/") EmptyString) = Some true.
Proof.
  intros H. unfold Block. apply Nat.leb_le in H. rewrite H. cbn.
  apply lookup_insert_eq.
Qed.

(** C6: once [Block] has recorded the 4th piece of [url] for [user], in
    every later state of the fetcher a photo URL with that 4th piece is
    blocked; a message a fetch for [user] returns is the message of one
    post of the feed, whose resources are the post's photos that are not
    blocked, in order, followed by its video: only the blocked photos are
    left out, and a post not yet seen with an unblocked photo is emitted
    with all of them. *)
Theorem blocked_photo_excluded (HTTPGet : string -> error + string)
    (Unmarshal : string -> error + TumblrPosts) (f0 f : TumblrFetcher)
    (user url : string) (time : Z) :
  (4 <= List.length (Split url "/"))%nat ->
  later (snd (Block None f0 user url)) f ->
  let frag := nth 3 (Split url "/") EmptyString in
  (forall u, (4 <= List.length (Split u "/"))%nat ->
     nth 3 (Split u "/") EmptyString = frag ->
     is_blocked_url (DB f) user u = true) /\
  (forall photos photo,
     In photo (unblocked (DB f) user photos) <->
     In photo photos /\ is_blocked_url (DB f) user (OriginalSize_URL photo) = false) /\
  (forall m,
     In m (fst (fst (getUserTimeline HTTPGet Unmarshal f user time))) ->
     exists body posts p,
       HTTPGet (api_url user (OAuthConsumerKey f)) = inr body /\
       Unmarshal body = inr posts /\
       In p (Response_Posts posts) /\
       m = {| Resources := List.map photo_resource (unblocked (DB f) user (Photos p))
                           ++ video_resource p;
              Caption := ShortURL p; Err := None |}) /\
  (forall p rest ret c,
     eligible p = true -> time <= Timestamp p ->
     c !! msgid_of user p = None ->
     unblocked (DB f) user (Photos p) <> [] ->
     range_posts (DB f) user time (p :: rest) ret c
     = range_posts (DB f) user time rest
         (ret ++ [ {| Resources := List.map photo_resource (unblocked (DB f) user (Photos p))
                                   ++ video_resource p;
                      Caption := ShortURL p; Err := None |} ])
         (<[msgid_of user p := true]> c)).
Proof.
  intros Hlen Hlater frag.
  split; [|split; [|split]].
  - intros u Hu Hfrag. apply is_blocked_url_iff. split; [exact Hu|].
    rewrite Hfrag. eapply later_block_kept; [exact Hlater|].
    apply Block_records. exact Hlen.
  - intros photos photo. unfold unblocked. rewrite filter_In.
    rewrite negb_true_iff. reflexivity.
  - intros m Hm. unfold getUserTimeline in Hm.
    destruct (String.eqb (OAuthConsumerKey f) ""); [destruct Hm|].
    destruct (HTTPGet _) as [e|body] eqn:Eg; [destruct Hm|].
    destruct (Unmarshal body) as [e|posts] eqn:Eu; [destruct Hm|].
    destruct (negb (Meta_Status posts =? 200)); [destruct Hm|].
    destruct (range_posts (DB f) user time (Response_Posts posts) [] (cache f))
      as [ret c] eqn:Er. cbn [fst] in Hm.
    pose proof (range_posts_emitted (DB f) user time (Response_Posts posts)
                  [] (cache f) m) as H.
    rewrite Er in H. destruct (H Hm) as [[]|[p [Hp ->]]].
    exists body, posts, p. rewrite post_resources_unblocked.
    repeat split; try assumption.
  - intros p rest ret c He Ht Hc Hne.
    rewrite <- post_resources_unblocked.
    apply range_posts_unseen_emit; try assumption.
    rewrite post_resources_unblocked.
    destruct (unblocked (DB f) user (Photos p)); [congruence|discriminate].
Qed.

(** * Further properties of the fetcher *)

(** ** Failures of a fetch (lines 84-101) *)

(** A fetch that returns an error returns no message and leaves the
    fetcher, cache included, as it was; it returns no error exactly when
    there is a credential, the request and the decoding succeed, and the
    status of the answer is 200. *)
Theorem getUserTimeline_error_no_effect (HTTPGet : string -> error + string)
    (Unmarshal : string -> error + TumblrPosts) (f : TumblrFetcher)
    (user : string) (time : Z) :
  let r := getUserTimeline HTTPGet Unmarshal f user time in
  (forall e, snd (fst r) = Some e -> fst (fst r) = [] /\ snd r = f) /\
  (snd (fst r) = None <->
     OAuthConsumerKey f <> "" /\
     exists body posts,
       HTTPGet (api_url user (OAuthConsumerKey f)) = inr body /\
       Unmarshal body = inr posts /\ Meta_Status posts = 200).
Proof.
  cbv zeta. unfold getUserTimeline.
  destruct (String.eqb (OAuthConsumerKey f) "") eqn:Ek.
  { apply String.eqb_eq in Ek. cbn. split; [intros; split; reflexivity|].
    split; [discriminate|]. intros [H _]. contradiction. }
  apply String.eqb_neq in Ek.
  destruct (HTTPGet _) as [e|body] eqn:Eg.
  { cbn. split; [intros; split; reflexivity|]. split; [discriminate|].
    intros (_ & b & ps & H & _). discriminate. }
  destruct (Unmarshal body) as [e|posts] eqn:Eu.
  { cbn. split; [intros; split; reflexivity|]. split; [discriminate|].
    intros (_ & b & ps & H & H' & _). inversion H; subst. congruence. }
  destruct (negb (Meta_Status posts =? 200)) eqn:Es.
  { cbn. split; [intros; split; reflexivity|]. split; [discriminate|].
    intros (_ & b & ps & H & H' & Hs). inversion H; subst.
    rewrite Eu in H'. inversion H'; subst.
    rewrite Hs in Es. discriminate. }
  destruct (range_posts _ _ _ _ _ _) as [ret c]. cbn.
  split; [discriminate|]. split; [|reflexivity].
  intros _. split; [exact Ek|]. exists body, posts.
  apply negb_false_iff, Z.eqb_eq in Es. repeat split; assumption.
Qed.

(** ** The cursor boundary (lines 103-109) *)

(** The first photo or video post older than the cursor ends the loop:
    whatever follows it in the feed, also a newer post, is not looked
    at. *)
Theorem range_posts_stops_at_stale (db : Store) (user : string) (time : Z)
    (pre : list Post) (p : Post) (suf : list Post)
    (ret : list ReplyMessage) (c : gmap string bool) :
  eligible p = true -> Timestamp p < time ->
  range_posts db user time (pre ++ p :: suf) ret c
  = range_posts db user time pre ret c.
Proof.
  intros He Ht. revert ret c.
  induction pre as [|q pre IH]; intros ret c.
  - cbn [app range_posts]. rewrite He. cbn [negb].
    apply Z.ltb_lt in Ht. rewrite Ht. reflexivity.
  - cbn [app range_posts].
    destruct (negb (eligible q)); [apply IH|].
    destruct (Timestamp q <? time); [reflexivity|].
    destruct (c !! msgid_of user q); apply IH.
Qed.

(** ** What a fetch leaves in the cache (lines 124-129) *)

(** The cache after the loop holds the keys it held before and the keys
    of the posts the loop reached, and no other. *)
Theorem range_posts_cache_keys (db : Store) (user : string) (time : Z)
    (posts : list Post) (ret : list ReplyMessage) (c : gmap string bool) :
  dom (snd (range_posts db user time posts ret c))
  = dom c ∪ list_to_set (enumerated_keys user time posts).
Proof.
  unfold enumerated_keys. revert ret c.
  induction posts as [|p rest IH]; intros ret c; cbn [range_posts enumerated].
  - cbn. set_solver.
  - destruct (negb (eligible p)); [apply IH|].
    destruct (Timestamp p <? time); [cbn; set_solver|].
    cbn [List.map list_to_set].
    destruct (c !! msgid_of user p) as [v|] eqn:E.
    + rewrite IH. assert (msgid_of user p ∈ dom c) by (apply elem_of_dom; eauto).
      set_solver.
    + rewrite IH, dom_insert_L. set_solver.
Qed.

(** The messages a loop adds are no more than the keys it adds to the
    cache: two posts of one feed with the same canonical id give one
    message at most. *)
Theorem range_posts_one_message_per_key (db : Store) (user : string) (time : Z)
    (posts : list Post) (ret : list ReplyMessage) (c : gmap string bool) :
  (List.length (fst (range_posts db user time posts ret c)) + size c
   <= List.length ret + size (snd (range_posts db user time posts ret c)))%nat.
Proof.
  revert ret c. induction posts as [|p rest IH]; intros ret c; cbn [range_posts].
  - cbn. lia.
  - destruct (negb (eligible p)); [apply IH|].
    destruct (Timestamp p <? time); [cbn; lia|].
    destruct (c !! msgid_of user p) as [v|] eqn:E; [apply IH|].
    cbv zeta.
    match goal with |- context [range_posts db user time rest ?r ?c'] =>
      specialize (IH r c'); assert (Hr : (List.length r <= S (List.length ret))%nat)
    end.
    { destruct (0 <? List.length (post_resources db user p))%nat;
        [rewrite length_app; cbn; lia|lia]. }
    rewrite map_size_insert_None in IH by exact E. lia.
Qed.

(** ** The messages of a fetch (lines 131-156) *)

(** The slice [ret] only grows at its end. *)
Lemma range_posts_app (db : Store) (user : string) (time : Z) (posts : list Post)
    (ret : list ReplyMessage) (c : gmap string bool) :
  range_posts db user time posts ret c
  = (ret ++ fst (range_posts db user time posts [] c),
     snd (range_posts db user time posts [] c)).
Proof.
  revert ret c. induction posts as [|p rest IH]; intros ret c; cbn [range_posts].
  - cbn. rewrite app_nil_r. reflexivity.
  - destruct (negb (eligible p)); [apply IH|].
    destruct (Timestamp p <? time); [cbn; rewrite app_nil_r; reflexivity|].
    destruct (c !! msgid_of user p); [apply IH|].
    cbv zeta. destruct (0 <? List.length (post_resources db user p))%nat.
    + rewrite IH. rewrite (IH ([] ++ _)). cbn [fst snd app].
      rewrite <- app_assoc. reflexivity.
    + apply IH.
Qed.

(** The messages of a fetch are messages of posts of the feed, in the
    order of the feed, each post giving one message at most. *)
Theorem range_posts_feed_order (db : Store) (user : string) (time : Z)
    (posts : list Post) (c : gmap string bool) :
  fst (range_posts db user time posts [] c)
    `sublist_of` List.map (message_of db user) posts.
Proof.
  revert c. induction posts as [|p rest IH]; intros c; cbn [range_posts List.map].
  - constructor.
  - destruct (negb (eligible p)); [apply sublist_cons, IH|].
    destruct (Timestamp p <? time); [apply sublist_nil_l|].
    destruct (c !! msgid_of user p); [apply sublist_cons, IH|].
    cbv zeta. destruct (0 <? List.length (post_resources db user p))%nat.
    + rewrite range_posts_app. cbn [fst app].
      apply sublist_skip, IH.
    + apply sublist_cons, IH.
Qed.

Lemma photo_resource_recognized (photo : PostPhoto) :
  recognized (photo_resource photo) = true.
Proof.
  unfold recognized, photo_resource, photo_type. cbn [T].
  destruct (HasSuffix _ _); reflexivity.
Qed.

Lemma post_resources_recognized (db : Store) (user : string) (p : Post) :
  forallb recognized (post_resources db user p) = true.
Proof.
  rewrite post_resources_unblocked, forallb_app. apply andb_true_iff. split.
  - apply forallb_forall. intros r Hr. apply in_map_iff in Hr as [photo [<- _]].
    apply photo_resource_recognized.
  - unfold video_resource. destruct (negb (String.eqb (VideoURL p) "")); reflexivity.
Qed.

Lemma range_posts_wellformed (db : Store) (user : string) (time : Z)
    (posts : list Post) (ret : list ReplyMessage) (c : gmap string bool) :
  Forall wellformed ret ->
  Forall wellformed (fst (range_posts db user time posts ret c)).
Proof.
  revert ret c. induction posts as [|p rest IH]; intros ret c H; cbn [range_posts].
  - exact H.
  - destruct (negb (eligible p)); [apply IH, H|].
    destruct (Timestamp p <? time); [exact H|].
    destruct (c !! msgid_of user p); [apply IH, H|].
    cbv zeta. apply IH.
    destruct (0 <? List.length (post_resources db user p))%nat eqn:E; [|exact H].
    apply Forall_app. split; [exact H|]. apply Forall_cons. split; [|constructor].
    unfold wellformed. cbn [Err Resources].
    split; [reflexivity|]. split; [|apply post_resources_recognized].
    apply Nat.ltb_lt in E. intros Hnil. rewrite Hnil in E. cbn in E. lia.
Qed.

Section PushWellformed.

Variable HTTPGet : string -> error + string.
Variable Unmarshal : string -> error + TumblrPosts.

Lemma getUserTimeline_wellformed (f : TumblrFetcher) (user : string) (time : Z) :
  Forall wellformed (fst (fst (getUserTimeline HTTPGet Unmarshal f user time))).
Proof.
  unfold getUserTimeline.
  destruct (String.eqb (OAuthConsumerKey f) ""); [constructor|].
  destruct (HTTPGet _) as [e|body]; [constructor|].
  destruct (Unmarshal body) as [e|posts]; [constructor|].
  destruct (negb (Meta_Status posts =? 200)); [constructor|].
  pose proof (range_posts_wellformed (DB f) user time (Response_Posts posts) []
                (cache f) (List.Forall_nil _)) as H.
  destruct (range_posts _ _ _ _ _ _) as [ret c]. exact H.
Qed.

Lemma range_followings_wellformed (f : TumblrFetcher) (last : Z)
    (followings : list string) (ret : list ReplyMessage) :
  Forall wellformed ret ->
  Forall wellformed (fst (range_followings HTTPGet Unmarshal f last followings ret)).
Proof.
  revert f ret. induction followings as [|follow rest IH]; intros f ret H.
  - exact H.
  - cbn [range_followings].
    pose proof (getUserTimeline_wellformed f follow last) as Hs.
    destruct (getUserTimeline HTTPGet Unmarshal f follow last) as [[single err] f1].
    cbn [fst] in Hs. apply IH.
    destruct err; [exact H|]. apply Forall_app. split; assumption.
Qed.

(** Every message a push returns carries no error and at least one
    resource, and every resource is an image or a video: none of them
    takes the unknown-kind path of the dispatcher. *)
Theorem GetPush_messages_wellformed (now : Z) (werr : option error)
    (f : TumblrFetcher) (userid : string) (followings : list string) :
  Forall wellformed (fst (GetPush HTTPGet Unmarshal now werr f userid followings)).
Proof.
  unfold GetPush.
  pose proof (range_followings_wellformed f
                (match DB_Get_last_update (DB f) userid with
                 | Some v => v | None => 0 end) followings [] (List.Forall_nil _)) as H.
  destruct (range_followings _ _ _ _ _ _) as [ret f1]. cbn [fst] in H.
  destruct (negb (List.length ret =? 0)%nat); exact H.
Qed.

End PushWellformed.

(** A post not yet seen that has a direct video URL is always emitted,
    with that video as its last resource: the block list is not consulted
    for the video, and cannot empty the message. *)
Theorem video_post_always_emitted (db : Store) (user : string) (time : Z)
    (p : Post) (rest : list Post) (ret : list ReplyMessage) (c : gmap string bool) :
  eligible p = true -> time <= Timestamp p ->
  c !! msgid_of user p = None ->
  VideoURL p <> "" ->
  post_resources db user p
  = List.map photo_resource (unblocked db user (Photos p))
    ++ [ {| URL := VideoURL p; T := TVIDEO; ResCaption := VideoURL p |} ] /\
  range_posts db user time (p :: rest) ret c
  = range_posts db user time rest (ret ++ [message_of db user p])
      (<[msgid_of user p := true]> c).
Proof.
  intros He Ht Hc Hv.
  assert (Hres : post_resources db user p
    = List.map photo_resource (unblocked db user (Photos p))
      ++ [ {| URL := VideoURL p; T := TVIDEO; ResCaption := VideoURL p |} ]).
  { rewrite post_resources_unblocked. unfold video_resource.
    apply String.eqb_neq in Hv. rewrite Hv. reflexivity. }
  split; [exact Hres|].
  apply range_posts_unseen_emit; try assumption.
  rewrite Hres. intros H. apply app_eq_nil in H as [_ H]. discriminate.
Qed.

(** ** Image or video (lines 133-136) *)

Lemma append_cons (c : ascii) (s t : string) :
  String c s +:+ t = String c (s +:+ t).
Proof. reflexivity. Qed.

Lemma append_empty_r (s : string) : s +:+ "" = s.
Proof.
  induction s as [|c s IH]; [reflexivity|]. rewrite append_cons, IH. reflexivity.
Qed.

Lemma ascii_lower_app (s t : string) :
  ascii_lower (s +:+ t) = ascii_lower s +:+ ascii_lower t.
Proof.
  induction s as [|c s IH]; [reflexivity|].
  rewrite append_cons. cbn [ascii_lower]. rewrite append_cons, IH. reflexivity.
Qed.

Lemma length_app_string (s t : string) :
  String.length (s +:+ t) = (String.length s + String.length t)%nat.
Proof.
  induction s as [|c s IH]; [reflexivity|].
  rewrite append_cons. cbn [String.length Nat.add]. rewrite IH. reflexivity.
Qed.

Lemma substring_whole (t : string) : substring 0 (String.length t) t = t.
Proof.
  induction t as [|c t IH]; [reflexivity|].
  cbn [String.length substring]. rewrite IH. reflexivity.
Qed.

Lemma substring_skip_app (s t : string) :
  substring (String.length s) (String.length t) (s +:+ t) = t.
Proof.
  induction s as [|c s IH]; [apply substring_whole|].
  rewrite append_cons. cbn [String.length substring]. exact IH.
Qed.

Lemma HasSuffix_app (s t : string) : HasSuffix (s +:+ t) t = true.
Proof.
  unfold HasSuffix. rewrite length_app_string.
  replace (String.length s + String.length t - String.length t)%nat
    with (String.length s) by lia.
  rewrite substring_skip_app. apply andb_true_iff. split.
  - apply Nat.leb_le. lia.
  - apply String.eqb_refl.
Qed.

(** A photo whose URL ends in ".gif", in whatever mix of upper and
    lower case of the ASCII letters, is sent as a video.  What is used of
    [strings.ToLower] is that it lowers an ASCII tail byte by byte,
    whatever comes before it: each byte below 0x80 is a code point of its
    own, also after an incomplete UTF-8 sequence. *)
Theorem photo_type_gif (s suffix : string) :
  (forall a t, is_ascii t = true -> ToLower (a +:+ t) = ToLower a +:+ ascii_lower t) ->
  is_ascii suffix = true ->
  ascii_lower suffix = ".gif" ->
  photo_type (s +:+ suffix) = TVIDEO.
Proof.
  intros Htail Ha Hs. unfold photo_type.
  rewrite (Htail s suffix Ha), Hs, HasSuffix_app. reflexivity.
Qed.

(** ** The pieces of a caption (lines 138-140, 189-191) *)

Lemma Split_length (s : string) (sep : ascii) :
  List.length (Split s sep) = S (count_byte sep s).
Proof.
  induction s as [|c s IH]; [reflexivity|]. cbn [Split count_byte].
  destruct (Ascii.eqb c sep).
  - cbn. rewrite IH. reflexivity.
  - destruct (Split s sep) as [|piece pieces]; [discriminate|]. exact IH.
Qed.

Lemma Split_no_sep (a : string) (sep : ascii) :
  count_byte sep a = 0%nat -> Split a sep = [a].
Proof.
  induction a as [|c a IH]; [reflexivity|]. cbn [Split count_byte].
  destruct (Ascii.eqb c sep); [discriminate|]. intros H.
  rewrite IH by exact H. reflexivity.
Qed.

Lemma Split_app_sep (a rest : string) (sep : ascii) :
  count_byte sep a = 0%nat ->
  Split (a +:+ String sep rest) sep = a :: Split rest sep.
Proof.
  induction a as [|c a IH]; intros H.
  - change ("" +:+ String sep rest) with (String sep rest).
    cbn [Split]. rewrite Ascii.eqb_refl. reflexivity.
  - cbn [count_byte] in H. rewrite append_cons. cbn [Split].
    destruct (Ascii.eqb c sep); [discriminate|].
    rewrite IH by exact H. reflexivity.
Qed.

(** [Block] issues its write exactly when the caption has three or more
    "/" in it; with fewer the fetcher is untouched. *)
Theorem Block_writes_iff_three_slashes (werr : option error) (f : TumblrFetcher)
    (userid caption : string) :
  ((3 <= count_byte "/" caption)%nat ->
     exists key, journal (DB (snd (Block werr f userid caption)))
                 = journal (DB f) ++ [SetBlock key true]) /\
  ((count_byte "/" caption < 3)%nat ->
     Block werr f userid caption = ("Unrecognized image caption.", f)).
Proof.
  unfold Block. rewrite Split_length. split; intros H.
  - assert (E : (4 <=? S (count_byte "/" caption))%nat = true)
      by (apply Nat.leb_le; lia).
    rewrite E. eexists. destruct werr; reflexivity.
  - assert (E : (4 <=? S (count_byte "/" caption))%nat = false)
      by (apply Nat.leb_gt; lia).
    rewrite E. reflexivity.
Qed.

(** For a caption of the shape a/b/c/d or a/b/c/d/..., the key is the
    user and d: for a URL scheme://host/x/... that is the first path
    segment x; the host is no part of the key. *)
Theorem Block_key_of_url (werr : option error) (f : TumblrFetcher)
    (userid a b c d tail : string) :
  count_byte "/" a = 0%nat -> count_byte "/" b = 0%nat ->
  count_byte "/" c = 0%nat -> count_byte "/" d = 0%nat ->
  tail = "" \/ (exists t, tail = String "/" t) ->
  let caption := a +:+ "/" +:+ b +:+ "/" +:+ c +:+ "/" +:+ d +:+ tail in
  fst (Block werr f userid caption) = Sprintf_at userid d +:+ " blocked." /\
  forall db user,
    is_blocked_url db user caption
    = match block db !! Sprintf_at user d with Some v => v | None => false end.
Proof.
  intros Ha Hb Hc Hd Ht caption.
  assert (Hs : exists more, Split caption "/" = a :: b :: c :: d :: more).
  { subst caption.
    change (exists more,
      Split (a +:+ String "/" (b +:+ String "/" (c +:+ String "/" (d +:+ tail)))) "/"
      = a :: b :: c :: d :: more).
    rewrite (Split_app_sep a) by exact Ha.
    rewrite (Split_app_sep b) by exact Hb.
    rewrite (Split_app_sep c) by exact Hc.
    destruct Ht as [->|[t ->]].
    - rewrite append_empty_r, Split_no_sep by exact Hd. eauto.
    - rewrite (Split_app_sep d) by exact Hd. eauto. }
  destruct Hs as [more Hs]. split.
  - unfold Block. rewrite Hs. cbn. destruct werr; reflexivity.
  - intros db user. unfold is_blocked_url, DB_Get_block. rewrite Hs. reflexivity.
Qed.

Lemma Block_key_of_url_witness :
  fst (Block None fresh "blog" "https://66.media.tumblr.com/abcfrag/tumblr_1.jpg")
  = "blog@abcfrag blocked.".
Proof.
  apply (Block_key_of_url None fresh "blog" "https:" "" "66.media.tumblr.com"
           "abcfrag" "/tumblr_1.jpg");
    try reflexivity.
  right. eexists. reflexivity.
Defined.

(** ** What a block changes, and what it does not (lines 188-196) *)

(** A committed block changes the verdict of the filter, for that user,
    only for URLs whose 4th piece is the one just blocked. *)
Theorem Block_only_that_fragment (werr : option error) (f : TumblrFetcher)
    (user url u : string) :
  (4 <= List.length (Split url "/"))%nat ->
  nth 3 (Split u "/") EmptyString <> nth 3 (Split url "/") EmptyString ->
  is_blocked_url (DB (snd (Block werr f user url))) user u
  = is_blocked_url (DB f) user u.
Proof.
  intros Hlen Hne. unfold Block. apply Nat.leb_le in Hlen. rewrite Hlen.
  unfold is_blocked_url, DB_Get_block.
  destruct (4 <=? List.length (Split u "/"))%nat; [|reflexivity].
  destruct werr as [e|]; cbn; [reflexivity|].
  rewrite lookup_insert_ne; [reflexivity|].
  unfold Sprintf_at. intros H. apply String.app_inj in H.
  apply String.app_inj in H. congruence.
Qed.

Lemma Block_only_that_fragment_witness :
  is_blocked_url
    (DB (snd (Block None fresh "blog" "https://66.media.tumblr.com/abcfrag/tumblr_1.jpg")))
    "blog" "https://66.media.tumblr.com/h1/tumblr_4.gif"
  = false.
Proof.
  rewrite (Block_only_that_fragment None fresh "blog"
             "https://66.media.tumblr.com/abcfrag/tumblr_1.jpg"
             "https://66.media.tumblr.com/h1/tumblr_4.gif").
  - reflexivity.
  - vm_compute. lia.
  - vm_compute. discriminate.
Defined.

(** Committed blocks can be repeated and reordered: the block bucket
    after two of them is the same in either order, and blocking the same
    caption again changes nothing in it. *)
Theorem Block_idempotent_commutes (f : TumblrFetcher) (u1 c1 u2 c2 : string) :
  block (DB (snd (Block None (snd (Block None f u1 c1)) u1 c1)))
  = block (DB (snd (Block None f u1 c1))) /\
  block (DB (snd (Block None (snd (Block None f u1 c1)) u2 c2)))
  = block (DB (snd (Block None (snd (Block None f u2 c2)) u1 c1))).
Proof.
  unfold Block.
  destruct (4 <=? List.length (Split c1 "/"))%nat;
    destruct (4 <=? List.length (Split c2 "/"))%nat; cbn;
    try (split; reflexivity).
  - split; [apply insert_insert_eq|].
    destruct (decide (Sprintf_at u2 (nth 3 (Split c2 "/") "")
                      = Sprintf_at u1 (nth 3 (Split c1 "/") ""))) as [->|Hne].
    + reflexivity.
    + apply insert_insert_ne. exact Hne.
  - split; [apply insert_insert_eq|reflexivity].
Qed.

(** No method unblocks: a URL the filter rejects for a user is rejected
    in every later state of the fetcher. *)
Theorem blocked_stays_blocked (f f' : TumblrFetcher) (user u : string) :
  later f f' ->
  is_blocked_url (DB f) user u = true -> is_blocked_url (DB f') user u = true.
Proof.
  intros Hl H. apply is_blocked_url_iff in H as [Hlen Hk].
  apply is_blocked_url_iff. split; [exact Hlen|].
  eapply later_block_kept; eassumption.
Qed.

(** ** A push after a push (lines 162-178) *)



Section PushAgain.

Variable HTTPGet : string -> error + string.
Variable Unmarshal : string -> error + TumblrPosts.


Lemma range_followings_key (f : TumblrFetcher) (last : Z)
    (followings : list string) (ret : list ReplyMessage) :
  OAuthConsumerKey (snd (range_followings HTTPGet Unmarshal f last followings ret))
  = OAuthConsumerKey f.
Proof.
  revert f ret. induction followings as [|follow rest IH]; intros f ret.
  - reflexivity.
  - cbn [range_followings].
    pose proof (getUserTimeline_frame HTTPGet Unmarshal f follow last) as [_ Hk].
    destruct (getUserTimeline HTTPGet Unmarshal f follow last) as [[single err] f1].
    cbn [snd] in Hk. rewrite IH. exact Hk.
Qed.








End PushAgain.

(** ** Sources that fail, sources listed twice (lines 168-173) *)

Section Followings.

Variable HTTPGet : string -> error + string.
Variable Unmarshal : string -> error + TumblrPosts.

(** Whether a fetch fails, and with which error, depends on the
    credential and the source alone. *)
Lemma getUserTimeline_error_indep (f1 f2 : TumblrFetcher) (user : string) (t1 t2 : Z) :
  OAuthConsumerKey f1 = OAuthConsumerKey f2 ->
  snd (fst (getUserTimeline HTTPGet Unmarshal f1 user t1))
  = snd (fst (getUserTimeline HTTPGet Unmarshal f2 user t2)).
Proof.
  intros Hk. unfold getUserTimeline. rewrite Hk.
  destruct (String.eqb (OAuthConsumerKey f2) ""); [reflexivity|].
  destruct (HTTPGet _) as [e|body]; [reflexivity|].
  destruct (Unmarshal body) as [e|posts]; [reflexivity|].
  destruct (negb (Meta_Status posts =? 200)); [reflexivity|].
  destruct (range_posts _ _ _ _ _ _), (range_posts _ _ _ _ _ _). reflexivity.
Qed.

Lemma getUserTimeline_failed (f : TumblrFetcher) (user : string) (time : Z) (e : error) :
  snd (fst (getUserTimeline HTTPGet Unmarshal f user time)) = Some e ->
  getUserTimeline HTTPGet Unmarshal f user time = (([], Some e), f).
Proof.
  unfold getUserTimeline.
  destruct (String.eqb (OAuthConsumerKey f) "");
    [cbn [fst snd]; intros [= <-]; reflexivity|].
  destruct (HTTPGet _) as [e1|body]; [cbn [fst snd]; intros [= <-]; reflexivity|].
  destruct (Unmarshal body) as [e1|posts];
    [cbn [fst snd]; intros [= <-]; reflexivity|].
  destruct (negb (Meta_Status posts =? 200));
    [cbn [fst snd]; intros [= <-]; reflexivity|].
  destruct (range_posts _ _ _ _ _ _). cbn [fst snd]. discriminate.
Qed.

Lemma range_followings_app (f : TumblrFetcher) (last : Z) (l1 l2 : list string)
    (ret : list ReplyMessage) :
  range_followings HTTPGet Unmarshal f last (l1 ++ l2) ret
  = range_followings HTTPGet Unmarshal
      (snd (range_followings HTTPGet Unmarshal f last l1 ret)) last l2
      (fst (range_followings HTTPGet Unmarshal f last l1 ret)).
Proof.
  revert f ret. induction l1 as [|g l1 IH]; intros f ret.
  - reflexivity.
  - cbn [app range_followings].
    destruct (getUserTimeline HTTPGet Unmarshal f g last) as [[single err] f1].
    apply IH.
Qed.

(** A source whose fetch fails can be taken out of the list: the push
    returns the same messages and leaves the same fetcher. *)
Theorem GetPush_skips_failing_source (now : Z) (werr : option error)
    (f : TumblrFetcher) (userid : string) (pre : list string) (bad : string)
    (suf : list string) (e : error) :
  snd (fst (getUserTimeline HTTPGet Unmarshal f bad 0)) = Some e ->
  GetPush HTTPGet Unmarshal now werr f userid (pre ++ bad :: suf)
  = GetPush HTTPGet Unmarshal now werr f userid (pre ++ suf).
Proof.
  intros Hbad. unfold GetPush.
  set (last := match DB_Get_last_update (DB f) userid with Some v => v | None => 0 end).
  rewrite !range_followings_app.
  pose proof (range_followings_key HTTPGet Unmarshal f last pre []) as Hk.
  destruct (range_followings HTTPGet Unmarshal f last pre []) as [ret fm].
  cbn [fst snd] in *. cbn [range_followings].
  rewrite (getUserTimeline_failed fm bad last e)
    by (rewrite (getUserTimeline_error_indep fm f bad last 0 Hk); exact Hbad).
  reflexivity.
Qed.


(** A push or a rewind for one subscriber leaves the cursor of every
    other subscriber, the block list and the credential as they were. *)
Theorem cursor_of_others_untouched (now : Z) (werr : option error)
    (f : TumblrFetcher) (userid other : string) (followings : list string) (back : Z) :
  other <> userid ->
  let f1 := snd (GetPush HTTPGet Unmarshal now werr f userid followings) in
  let f2 := snd (GoBack now werr f userid back) in
  last_update (DB f1) !! other = last_update (DB f) !! other /\
  block (DB f1) = block (DB f) /\
  OAuthConsumerKey f1 = OAuthConsumerKey f /\
  last_update (DB f2) !! other = last_update (DB f) !! other /\
  block (DB f2) = block (DB f) /\
  OAuthConsumerKey f2 = OAuthConsumerKey f.
Proof.
  intros Hne. cbv zeta. unfold GetPush, GoBack.
  set (last := match DB_Get_last_update (DB f) userid with Some v => v | None => 0 end).
  pose proof (range_followings_frame HTTPGet Unmarshal f last followings []) as Hdb.
  pose proof (range_followings_key HTTPGet Unmarshal f last followings []) as Hk.
  destruct (range_followings HTTPGet Unmarshal f last followings []) as [ret fe].
  cbn [snd] in Hdb, Hk.
  assert (H1 : forall v, <[userid := v]> (last_update (DB f)) !! other
                         = last_update (DB f) !! other)
    by (intros v; apply lookup_insert_ne; congruence).
  repeat split.
  - destruct (negb (List.length ret =? 0)%nat); cbn [snd]; [|rewrite Hdb; reflexivity].
    destruct werr; cbn; rewrite Hdb; [reflexivity|apply H1].
  - destruct (negb (List.length ret =? 0)%nat); cbn [snd]; [|rewrite Hdb; reflexivity].
    destruct werr; cbn; rewrite Hdb; reflexivity.
  - destruct (negb (List.length ret =? 0)%nat); cbn [snd]; exact Hk.
  - destruct (now <? back); [reflexivity|]. destruct werr; cbn; [reflexivity|apply H1].
  - destruct (now <? back); [reflexivity|]. destruct werr; reflexivity.
  - destruct (now <? back); [reflexivity|]. destruct werr; reflexivity.
Qed.

End Followings.

(** ** The range of a rewind (lines 180-186) *)

(** A rewind the store commits leaves a cursor between 0 and the current
    time when its argument is not negative; a negative argument is
    accepted too, and puts the cursor ahead of the clock. *)
Theorem GoBack_cursor_range (now : Z) (f : TumblrFetcher) (userid : string) (back : Z) :
  in_int64 now -> in_int64 back -> back <= now ->
  exists v,
    last_update (DB (snd (GoBack now None f userid back))) !! userid = Some v /\
    fst (GoBack now None f userid back) = None /\
    (0 <= back -> v = now - back /\ 0 <= v <= now) /\
    (back < 0 -> now - back <= int64_max -> v = now - back /\ now < v).
Proof.
  intros Hn Hb Hle. unfold GoBack.
  destruct (now <? back) eqn:E; [apply Z.ltb_lt in E; lia|].
  cbn. exists (sub64 now back). split; [apply lookup_insert_eq|].
  split; [reflexivity|]. unfold sub64.
  split; intros H.
  - rewrite wrap64_id; [lia|]. unfold in_int64, int64_min, int64_max in *. lia.
  - intros Hfit. rewrite wrap64_id; [lia|].
    unfold in_int64, int64_min, int64_max in *. lia.
Qed.

Lemma GoBack_cursor_range_witness :
  last_update (DB (snd (GoBack 1000 None fresh "user" (-1000)))) !! "user" = Some 2000.
Proof.
  destruct (GoBack_cursor_range 1000 fresh "user" (-1000)) as [v (Hv & _ & _ & H)].
  - unfold in_int64, int64_min, int64_max. lia.
  - unfold in_int64, int64_min, int64_max. lia.
  - lia.
  - destruct H as [-> _]; [lia|unfold int64_max; lia|]. exact Hv.
Defined.

(** ** Restart ([Init], lines 77-81) *)

(** [Init] empties the cache: what a fetch delivered before is delivered
    again by the same fetch after [Init]. *)
Theorem Init_forgets_seen (HTTPGet : string -> error + string)
    (Unmarshal : string -> error + TumblrPosts) (f : TumblrFetcher) (db : Store)
    (user : string) (time : Z) :
  let r1 := getUserTimeline HTTPGet Unmarshal (snd (Init f db)) user time in
  let r2 := getUserTimeline HTTPGet Unmarshal (snd (Init (snd r1) db)) user time in
  fst (Init f db) = None /\ cache (snd (Init f db)) = ∅ /\ fst r2 = fst r1.
Proof.
  cbv zeta. split; [reflexivity|]. split; [reflexivity|].
  pose proof (getUserTimeline_frame HTTPGet Unmarshal (snd (Init f db)) user time)
    as [_ Hk].
  unfold Init in *. cbn [snd OAuthConsumerKey] in *.
  rewrite Hk. reflexivity.
Qed.

(** * Further properties of the dispatcher *)

(** ** Albums of any kinds (lines 91-114) *)

Lemma range_album_kept (caption : string) (rs : list Resource)
    (acc : list InputMedia) :
  range_album caption rs acc = acc ++ kept caption rs.
Proof.
  unfold kept. revert acc.
  induction rs as [|r rs IH]; intros acc; cbn [range_album List.filter List.map].
  - symmetry. apply app_nil_r.
  - destruct (ResourceType_eqb (T r) TIMAGE) eqn:E1.
    + assert (Hrec : recognized r = true)
        by (unfold recognized; rewrite E1; reflexivity).
      rewrite Hrec. cbn [List.map]. rewrite IH, <- app_assoc. cbn [app].
      unfold media_of. rewrite E1. reflexivity.
    + destruct (ResourceType_eqb (T r) TVIDEO) eqn:E2.
      * assert (Hrec : recognized r = true)
          by (unfold recognized; rewrite E1, E2; reflexivity).
        rewrite Hrec. cbn [List.map]. rewrite IH, <- app_assoc. cbn [app].
        unfold media_of. rewrite E1. reflexivity.
      * assert (Hrec : recognized r = false)
          by (unfold recognized; rewrite E1, E2; reflexivity).
        rewrite Hrec. apply IH.
Qed.

Section AnyAlbums.

Variable bot : Transport.
Variable to : Recipient.
Variable message : ReplyMessage.

Local Abbreviation len := (List.length (Resources message)).
Local Abbreviation album_of :=
  (fun k : nat =>
     Bot_SendAlbum to
       (kept (Caption message) (take 10 (drop (10 * k) (Resources message))))).

Lemma batch_bounds (i : nat) :
  (i < len)%nat ->
  take ((if (len <? i + MaxAlbumSize)%nat then len else (i + MaxAlbumSize)%nat) - i)
       (drop i (Resources message))
  = take 10 (drop i (Resources message)).
Proof.
  intros Hi. unfold MaxAlbumSize.
  destruct (len <? i + 10)%nat eqn:E.
  - apply Nat.ltb_lt in E.
    rewrite !take_ge; [reflexivity| |]; rewrite length_drop; lia.
  - f_equal. lia.
Qed.

Lemma range_batches_spec (fuel k : nat) (ret : option error) (log : list BotCall) :
  (len - 10 * k <= fuel)%nat ->
  range_batches bot fuel to message (10 * k) ret log
  = (log ++ List.map album_of (seq k ((len + 9) / 10 - k)),
     last_error ret
       (answers bot log (List.map album_of (seq k ((len + 9) / 10 - k))))).
Proof.
  revert k ret log. induction fuel as [|fuel IH]; intros k ret log H.
  - rewrite nbatches_done by lia. cbn [range_batches seq List.map answers last_error].
    rewrite app_nil_r. reflexivity.
  - remember (10 * k)%nat as i eqn:Hi.
    cbn [range_batches].
    destruct (i <? len)%nat eqn:E.
    + apply Nat.ltb_lt in E.
      cbv zeta. rewrite (batch_bounds i E), range_album_kept. cbn [app].
      unfold call.
      replace (i + MaxAlbumSize)%nat with (10 * S k)%nat
        by (unfold MaxAlbumSize; lia).
      rewrite IH by lia.
      rewrite (nbatches_more message k) by lia.
      cbn [seq List.map answers last_error]. rewrite <- app_assoc, <- Hi.
      reflexivity.
    + apply Nat.ltb_ge in E. rewrite (nbatches_done message k) by lia.
      cbn [seq List.map answers last_error]. rewrite app_nil_r. reflexivity.
Qed.

Lemma Send_multi :
  Err message = None -> (2 <= len)%nat ->
  Send bot to message
  = (List.map album_of (seq 0 ((len + 9) / 10)),
     Returned (last_error None
                 (answers bot [] (List.map album_of (seq 0 ((len + 9) / 10)))))).
Proof.
  intros He Hlen. unfold Send. rewrite He.
  destruct (len =? 1)%nat eqn:E1; [apply Nat.eqb_eq in E1; lia|].
  destruct (len =? 0)%nat eqn:E0; [apply Nat.eqb_eq in E0; lia|].
  pose proof (range_batches_spec len 0 None []) as H.
  rewrite Nat.mul_0_r, Nat.sub_0_r in H. specialize (H (Nat.le_refl _)).
  change (10 * 0)%nat with 0%nat in H. rewrite H, Nat.sub_0_r. reflexivity.
Qed.

End AnyAlbums.

(** A message without error and with two or more resources, of whatever
    kinds: one album goes out per slice 10k .. 10k+9 of the resources, made
    of the resources of that slice whose kind is recognized, the others
    being left out (the album may be short, or empty); every entry carries
    the whole caption, which is not truncated. *)
Theorem Send_albums_drop_unknown (bot : Transport) (to : Recipient)
    (message : ReplyMessage) :
  Err message = None ->
  (2 <= List.length (Resources message))%nat ->
  fst (Send bot to message)
  = List.map
      (fun k => Bot_SendAlbum to
                  (kept (Caption message) (take 10 (drop (10 * k) (Resources message)))))
      (seq 0 ((List.length (Resources message) + 9) / 10)) /\
  forall a m, In a (albums_of (fst (Send bot to message))) -> In m a ->
    exists r, In r (Resources message) /\ recognized r = true /\
              m = media_of (Caption message) r.
Proof.
  intros He Hlen. rewrite (Send_multi bot to message He Hlen). cbn [fst].
  split; [reflexivity|].
  intros a m Ha Hm. rewrite albums_of_map in Ha.
  apply in_map_iff in Ha as [k [<- _]].
  unfold kept in Hm. apply in_map_iff in Hm as [r [<- Hr]].
  apply filter_In in Hr as [Hr Hrec].
  exists r. split; [|split; [exact Hrec|reflexivity]].
  rewrite <- (firstn_skipn (10 * k) (Resources message)). apply in_or_app. right.
  rewrite <- (firstn_skipn 10 (drop (10 * k) (Resources message))).
  apply in_or_app. left. exact Hr.
Qed.

Lemma Send_albums_drop_unknown_witness :
  album_sizes (fst (Send accept_all "chat" message_mixed)) = [0; 2]%nat.
Proof.
  unfold album_sizes.
  destruct (Send_albums_drop_unknown accept_all "chat" message_mixed) as [-> _];
    [reflexivity|vm_compute; lia|].
  vm_compute. reflexivity.
Defined.

Lemma last_error_None (ret : option error) (ans : list (option error)) :
  last_error ret ans = None <-> ret = None /\ Forall (fun a => a = None) ans.
Proof.
  revert ret. induction ans as [|a ans IH]; intros ret; cbn [last_error].
  - split; [intros H; split; [exact H|constructor]|intros [H _]; exact H].
  - rewrite IH. split.
    + intros [Ha Hf]. destruct a; [discriminate|].
      split; [exact Ha|]. constructor; [reflexivity|exact Hf].
    + intros [Hr Hf]. apply Forall_cons in Hf as [-> Hf]. split; assumption.
Qed.

Lemma last_error_last (ret : option error) (pre suf : list (option error)) (e : error) :
  Forall (fun a => a = None) suf ->
  last_error ret (pre ++ Some e :: suf) = Some e.
Proof.
  intros Hs. revert ret. induction pre as [|a pre IH]; intros ret.
  - cbn [app last_error]. clear ret.
    induction suf as [|a suf IH]; [reflexivity|].
    apply Forall_cons in Hs as [-> Hs]. cbn [last_error]. apply IH, Hs.
  - cbn [app last_error]. apply IH.
Qed.

(** The same message: [Send] returns, and its result is nil exactly when
    the transport accepted every album; when it refused some, the result
    is the error of the last album refused, also when albums sent after
    it were accepted. *)
Theorem Send_albums_result (bot : Transport) (to : Recipient) (message : ReplyMessage) :
  Err message = None ->
  (2 <= List.length (Resources message))%nat ->
  let ans := answers bot [] (fst (Send bot to message)) in
  (snd (Send bot to message) = Returned None <-> Forall (fun a => a = None) ans) /\
  (forall pre e suf, ans = pre ++ Some e :: suf -> Forall (fun a => a = None) suf ->
     snd (Send bot to message) = Returned (Some e)).
Proof.
  intros He Hlen. rewrite (Send_multi bot to message He Hlen). cbn [fst snd]. split.
  - split.
    + intros [= H]. apply last_error_None in H as [_ H]. exact H.
    + intros H. f_equal. apply last_error_None. split; [reflexivity|exact H].
  - intros pre e suf -> Hs. f_equal. apply last_error_last, Hs.
Qed.

Lemma Send_albums_result_witness :
  snd (Send refuse_second "chat" message_23) = Returned (Some "flood").
Proof.
  destruct (Send_albums_result refuse_second "chat" message_23) as [_ H];
    [reflexivity|vm_compute; lia|].
  apply (H [None] "flood" [None]); [reflexivity|].
  constructor; [reflexivity|constructor].
Defined.

(** ** Messages of no or one resource (lines 65-89) *)

Lemma substring_0_all (n : nat) (s : string) :
  (String.length s <= n)%nat -> substring 0 n s = s.
Proof.
  revert n. induction s as [|c s IH]; intros n H.
  - destruct n; reflexivity.
  - destruct n as [|n]; cbn [String.length] in H; [lia|].
    cbn [substring]. rewrite IH by lia. reflexivity.
Qed.

Lemma truncate_caption_191 (caption : string) :
  String.length caption <> 190%nat ->
  truncate_caption caption = Some (substring 0 191 caption).
Proof.
  intros H. unfold truncate_caption, slice_to.
  destruct (190 <=? String.length caption)%nat eqn:E.
  - apply Nat.leb_le in E.
    assert (Hle : (191 <=? String.length caption)%nat = true)
      by (apply Nat.leb_le; lia).
    rewrite Hle. reflexivity.
  - apply Nat.leb_gt in E. rewrite substring_0_all by lia. reflexivity.
Qed.

(** A message without error makes one call of the transport when it has
    no resource (the whole caption, as text, however long) or one resource
    of a recognized kind and a caption not 190 bytes long (the resource,
    with the first 191 bytes of the caption); [Send] returns what the
    transport answers to that call. *)
Theorem Send_small_message (bot : Transport) (to : Recipient) (message : ReplyMessage) :
  Err message = None ->
  (Resources message = [] ->
     Send bot to message
     = ([Bot_Send to (SendText (Caption message))],
        Returned (bot [] (Bot_Send to (SendText (Caption message)))))) /\
  (forall r,
     Resources message = [r] -> recognized r = true ->
     String.length (Caption message) <> 190%nat ->
     let caption := substring 0 191 (Caption message) in
     Send bot to message
     = ([Bot_Send to (SendMedia (Some (media_of caption r)))],
        Returned (bot [] (Bot_Send to (SendMedia (Some (media_of caption r))))))
     /\ String.length caption = Nat.min 191 (String.length (Caption message))).
Proof.
  intros He. split.
  - intros Hr. unfold Send. rewrite He, Hr. cbn [List.length Nat.eqb].
    unfold call. cbn [app].
    destruct (bot [] (Bot_Send to (SendText (Caption message)))); reflexivity.
  - intros r Hr Hrec Hlen caption. split.
    + unfold Send. rewrite He, Hr, (truncate_caption_191 _ Hlen).
      cbn [List.length Nat.eqb lookup list_lookup]. fold caption.
      unfold media_of, recognized in *.
      destruct (ResourceType_eqb (T r) TIMAGE); [reflexivity|].
      cbn [orb] in Hrec. rewrite Hrec. reflexivity.
    + subst caption.
      destruct (Nat.le_gt_cases 191 (String.length (Caption message))) as [H|H].
      * rewrite substring_0_length by exact H. lia.
      * rewrite substring_0_all by lia. lia.
Qed.

Lemma Send_small_message_witness :
  Send accept_all "chat"
    {| Resources := [ {| URL := "u"; T := TVIDEO; ResCaption := "u" |} ];
       Caption := repeat_byte "a" 300; Err := None |}
  = ([Bot_Send "chat" (SendMedia (Some (tb_Video "u" (repeat_byte "a" 191))))],
     Returned None).
Proof.
  destruct (Send_small_message accept_all "chat"
              {| Resources := [ {| URL := "u"; T := TVIDEO; ResCaption := "u" |} ];
                 Caption := repeat_byte "a" 300; Err := None |} eq_refl) as [_ H].
  destruct (H {| URL := "u"; T := TVIDEO; ResCaption := "u" |} eq_refl eq_refl)
    as [Hs _]; [vm_compute; lia|].
  etrans; [exact Hs|]. vm_compute. reflexivity.
Defined.

End Lowering.

(** ** The statements above at concrete inputs

    The URLs below are ASCII strings, which [strings.ToLower] lowers
    byte by byte: [ascii_lower] is the lowering function here. *)

Lemma GetPush_cursor_witness :
  fst (GetPush ascii_lower get_body decode_3000 5000 None fresh "user" ["blog"]) <> [] /\
  last_update (DB (snd (GetPush ascii_lower get_body decode_3000 5000 None fresh "user" ["blog"])))
    !! "user" = Some 5000.
Proof.
  assert (Hne : fst (GetPush ascii_lower get_body decode_3000 5000 None fresh "user" ["blog"]) <> [])
    by (vm_compute; discriminate).
  split; [exact Hne|].
  destruct (GetPush_cursor ascii_lower get_body decode_3000 5000 None fresh "user" ["blog"])
    as (_ & H & _).
  destruct (H Hne) as (_ & _ & Hs & _).
  rewrite (Hs eq_refl). apply lookup_insert_eq.
Defined.

(** C5, as stated, fails once the stored cursor is ahead of the clock,
    which [GoBack] with a negative argument brings about: at time 1000 the
    cursor is set to 2000; the push at time 1001, finding a post dated
    3000, writes 1001. *)
Lemma GetPush_lowers_cursor :
  let f1 := snd (GoBack 1000 None fresh "user" (-1000)) in
  let r := GetPush ascii_lower get_body decode_3000 1001 None f1 "user" ["blog"] in
  last_update (DB f1) !! "user" = Some 2000 /\
  List.length (fst r) = 1%nat /\
  last_update (DB (snd r)) !! "user" = Some 1001 /\
  1001 < 2000.
Proof. vm_compute. repeat split; reflexivity. Qed.

Lemma blocked_photo_excluded_witness :
  let f := snd (Block None fresh "blog"
                  "https://66.media.tumblr.com/abcfrag/tumblr_1.jpg") in
  is_blocked_url (DB f) "blog" "https://66.media.tumblr.com/abcfrag/tumblr_3.jpg"
    = true /\
  fst (fst (getUserTimeline ascii_lower get_body decode_two_photos f "blog" 0))
  = [ {| Resources :=
           [ {| URL := "https://66.media.tumblr.com/h1/tumblr_4.gif"; T := TVIDEO;
                ResCaption := "https://66.media.tumblr.com/h1/tumblr_4.gif" |} ];
         Caption := "https://tmblr.co/Zghi"; Err := None |} ].
Proof.
  intros f. split.
  - apply (blocked_photo_excluded ascii_lower get_body decode_two_photos fresh f "blog"
             "https://66.media.tumblr.com/abcfrag/tumblr_1.jpg" 0).
    + vm_compute. lia.
    + apply later_now.
    + vm_compute. lia.
    + reflexivity.
  - vm_compute. reflexivity.
Defined.

Lemma range_posts_stops_at_stale_witness :
  range_posts ascii_lower no_store "blog" 350
    ([photo_post 1 500; photo_post 2 400] ++ photo_post 3 300 :: [photo_post 4 900])
    [] ∅
  = range_posts ascii_lower no_store "blog" 350 [photo_post 1 500; photo_post 2 400] [] ∅.
Proof.
  apply (range_posts_stops_at_stale ascii_lower no_store "blog" 350
           [photo_post 1 500; photo_post 2 400] (photo_post 3 300) [photo_post 4 900]).
  - reflexivity.
  - reflexivity.
Defined.

Lemma video_post_always_emitted_witness :
  fst (range_posts ascii_lower
         {| last_update := ∅; block := {[ "blog@abcfrag" := true ]}; journal := [] |}
         "blog" 0
         [ {| Type_ := "video"; ID := 5; Timestamp := 10; ShortURL := "s"; Trail := [];
              VideoURL := "https://v/w/x/abcfrag/y.mp4";
              Photos := [ {| OriginalSize_URL := "https://a/abcfrag/b.jpg" |} ] |} ]
         [] ∅)
  = [ {| Resources := [ {| URL := "https://v/w/x/abcfrag/y.mp4"; T := TVIDEO;
                           ResCaption := "https://v/w/x/abcfrag/y.mp4" |} ];
         Caption := "s"; Err := None |} ].
Proof.
  destruct (video_post_always_emitted ascii_lower
              {| last_update := ∅; block := {[ "blog@abcfrag" := true ]}; journal := [] |}
              "blog" 0
              {| Type_ := "video"; ID := 5; Timestamp := 10; ShortURL := "s"; Trail := [];
                 VideoURL := "https://v/w/x/abcfrag/y.mp4";
                 Photos := [ {| OriginalSize_URL := "https://a/abcfrag/b.jpg" |} ] |}
              [] [] ∅) as [_ H]; [reflexivity|cbn; lia|reflexivity|discriminate|].
  rewrite H. reflexivity.
Defined.

Lemma photo_type_gif_witness :
  photo_type ascii_lower ("https://66.media.tumblr.com/h1/tumblr_4" +:+ ".GiF") = TVIDEO.
Proof.
  apply (photo_type_gif ascii_lower "https://66.media.tumblr.com/h1/tumblr_4" ".GiF").
  - intros a t _. apply ascii_lower_app.
  - reflexivity.
  - reflexivity.
Defined.

Lemma blocked_stays_blocked_witness :
  is_blocked_url
    (DB (snd (GoBack 1000 None
                (snd (Block None fresh "blog"
                        "https://66.media.tumblr.com/abcfrag/tumblr_1.jpg"))
                "user" 10)))
    "blog" "https://66.media.tumblr.com/abcfrag/tumblr_3.jpg" = true.
Proof.
  apply (blocked_stays_blocked ascii_lower
           (snd (Block None fresh "blog"
                   "https://66.media.tumblr.com/abcfrag/tumblr_1.jpg"))).
  - apply later_GoBack, later_now.
  - reflexivity.
Defined.


Lemma GetPush_skips_failing_source_witness :
  GetPush ascii_lower get_but_bad decode_3000 5000 None fresh "user" ([] ++ "bad" :: ["blog"])
  = GetPush ascii_lower get_but_bad decode_3000 5000 None fresh "user" ([] ++ ["blog"]).
Proof.
  apply (GetPush_skips_failing_source ascii_lower get_but_bad decode_3000 5000 None fresh "user"
           [] "bad" ["blog"] "timeout").
  reflexivity.
Defined.

Lemma cursor_of_others_untouched_witness :
  last_update
    (DB (snd (GetPush ascii_lower get_body decode_3000 5000 None
                (snd (GoBack 1000 None fresh "bob" 10)) "alice" ["blog"])))
    !! "bob" = Some 990.
Proof.
  destruct (cursor_of_others_untouched ascii_lower get_body decode_3000 5000 None
              (snd (GoBack 1000 None fresh "bob" 10)) "alice" "bob" ["blog"] 0)
    as [H _]; [discriminate|].
  etrans; [exact H|]. reflexivity.
Defined.
